(** * lightwalletd: startup, RPC client construction, metrics and block cache

    A shallow embedding of
      - [frontend.NewZRPCFromConf] and [frontend.NewZRPCFromCreds]
        (package frontend, RPC client construction),
      - [common.GetPrometheusMetrics] (package common),
      - [init] and [main] of cmd/server/main.go,
    together with the library calls they rely on, and a model of the
    block cache that the specification describes. *)

From stdpp Require Import gmap strings list fin_maps pretty.
From Stdlib Require Import ZArith QArith Qcanon Ascii String Strings.Byte.

Local Open Scope Z_scope.
Local Open Scope string_scope.

(** ** Go values shared by all packages *)

(** A non-nil Go [error] value.  [ErrWithMessage] is what pkg/errors builds
    when it annotates a cause. *)
Inductive Error : Type :=
  | ErrNew (msg : string)
  | ErrWithMessage (cause : Error) (msg : string).

(** The Go interface type [error]: [None] is [nil]. *)
Definition error : Type := option Error.

#[global] Instance Error_eq_dec : EqDecision Error.
Proof. solve_decision. Defined.

(** ** Library calls used by the sources *)

(** github.com/pkg/errors *)
Module errors.

(** [errors.Wrap(err, message)]: annotates [err] with [message]; the
    library documents and implements "If err is nil, Wrap returns nil". *)
Definition Wrap (err : error) (message : string) : error :=
  match err with
  | None => None
  | Some e => Some (ErrWithMessage e message)
  end.

End errors.

(** gopkg.in/ini.v1, as far as [NewZRPCFromConf] uses it.  A loaded file is
    a map from section names to key/value maps; the values are the strings
    that [Key.String()] reports.  The keys that stand before any section
    header are those of the section with the empty name. *)
Module ini.

Record File : Type := mkFile { sections : gmap string (gmap string string) }.

(** [cfg.Section(name)]: a section that is not in the file is empty. *)
Definition Section (cfg : File) (name : string) : gmap string string :=
  default ∅ (sections cfg !! name).

(** [sec.Key(name).String()]: a key that is not in the section has the
    empty string as its value. *)
Definition Key (sec : gmap string string) (name : string) : string :=
  default "" (sec !! name).

End ini.

(** Package net. *)
Module net.

(** [strings.IndexByte(s, c) >= 0] *)
Fixpoint hasByte (c : ascii) (s : string) : bool :=
  match s with
  | EmptyString => false
  | String a rest => if decide (a = c) then true else hasByte c rest
  end.

(** [net.JoinHostPort]: a host with a colon in it is taken to be a literal
    IPv6 address and is put in square brackets. *)
Definition JoinHostPort (host port : string) : string :=
  if hasByte ":"%char host
  then "[" +:+ host +:+ "]:" +:+ port
  else host +:+ ":" +:+ port.

End net.

(** github.com/btcsuite/btcd/rpcclient: the connection configuration with the
    fields the sources set (every other field keeps Go's zero value), and
    the client, which keeps the configuration it was made from. *)
Module rpcclient.

Record ConnConfig : Type := mkConnConfig {
  Host : string;
  User : string;
  Pass : string;
  HTTPPostMode : bool;
  DisableTLS : bool
}.

Record Client : Type := mkClient { config : ConnConfig }.

(** Notification handlers; the sources only ever pass [nil]. *)
Inductive NotificationHandlers : Type := mkNotificationHandlers.

(** The type of [rpcclient.New]: a pair of a client pointer and an error. *)
Definition NewT : Type :=
  ConnConfig -> option NotificationHandlers -> option Client * error.

End rpcclient.

#[global] Instance ConnConfig_eq_dec : EqDecision rpcclient.ConnConfig.
Proof. solve_decision. Defined.

#[global] Instance Client_eq_dec : EqDecision rpcclient.Client.
Proof. solve_decision. Defined.

(** ** Package frontend: construction of the RPC client *)
Module frontend.

Section WithLibraries.

(** [ini.Load] reads the file system: the file's contents are an input.
    It returns a file exactly when it returns no error. *)
Variable ini_Load : string -> Error + ini.File.

(** [rpcclient.New] is the library's constructor. *)
Variable rpcclient_New : rpcclient.NewT.

Definition NewZRPCFromCreds (addr username password : string)
  : option rpcclient.Client * error :=
  (* Connect to local zcash RPC server using HTTP POST mode. *)
  let connCfg := {|
    rpcclient.Host := addr;
    rpcclient.User := username;
    rpcclient.Pass := password;
    rpcclient.HTTPPostMode := true; (* Zcash only supports HTTP POST mode *)
    rpcclient.DisableTLS := true    (* Zcash does not provide TLS by default *)
  |} in
  (* the notification parameter is nil *)
  rpcclient_New connCfg None.

Definition NewZRPCFromConf (confPath : string)
  : option rpcclient.Client * error :=
  match ini_Load confPath with
  | inl e =>
      (None, errors.Wrap (Some e) "failed to read config file")
  | inr cfg =>
      (* [err] is nil from here on *)
      let err : error := None in
      let rpcaddr := ini.Key (ini.Section cfg "") "rpcbind" in
      let rpcport := ini.Key (ini.Section cfg "") "rpcport" in
      let username := ini.Key (ini.Section cfg "") "rpcuser" in
      let password := ini.Key (ini.Section cfg "") "rpcpassword" in
      (* set local default *)
      let rpcaddr := if decide (rpcaddr = "") then "127.0.0.1" else rpcaddr in
      (* set default zero rpc port *)
      let rpcport := if decide (rpcport = "") then "23811" else rpcport in
      (* username and password required *)
      if bool_decide (username = "") || bool_decide (password = "")
      then (None, errors.Wrap err "username and/or password are not set in config file")
      else NewZRPCFromCreds (net.JoinHostPort rpcaddr rpcport) username password
  end.

End WithLibraries.

End frontend.


(** github.com/prometheus/client_golang/prometheus, as far as the sources
    use it: counters and a registry of collectors. *)
Module prometheus.

Record CounterOpts : Type := mkCounterOpts { Name : string; Help : string }.

(** A counter: its description and its current value.  The library keeps
    the value as a float64; it is modelled as an exact rational, so rounding
    is not part of this model. *)
Record Counter : Type := mkCounter { opts : CounterOpts; value : Qc }.

(** [prometheus.NewCounter(opts)]: a fresh counter starts at zero. *)
Definition NewCounter (o : CounterOpts) : Counter :=
  {| opts := o; value := 0%Qc |}.

(** The two methods of the [Counter] interface that change the value:
    [Inc()] and [Add(float64)]. *)
Inductive CounterOp : Type :=
  | Inc
  | Add (v : Qc).

(** One method call; [None] is the panic of [Add] on a negative argument
    ("counter cannot decrease in value"). *)
Definition call (op : CounterOp) (c : Counter) : option Counter :=
  match op with
  | Inc => Some {| opts := opts c; value := (value c + 1)%Qc |}
  | Add v =>
      if bool_decide (v < 0)%Qc then None
      else Some {| opts := opts c; value := (value c + v)%Qc |}
  end.

(** A run of method calls on one counter, stopping at the first panic. *)
Fixpoint calls (ops : list CounterOp) (c : Counter) : option Counter :=
  match ops with
  | [] => Some c
  | op :: rest =>
      match call op c with
      | None => None
      | Some c' => calls rest c'
      end
  end.

(** A registry: the collectors registered so far, oldest first. *)
Definition Registry : Type := list Counter.

(** [prometheus.NewRegistry()]: a registry of its own, with no collector
    in it. *)
Definition NewRegistry : Registry := [].

(** [r.MustRegister(c)]: registration fails, and [MustRegister] panics
    ([None]), when a collector with the same fully-qualified name is in the
    registry already.  (The check of the name's spelling is not modelled.) *)
Definition MustRegister (r : Registry) (c : Counter) : option Registry :=
  if bool_decide (Name (opts c) ∈ (Name ∘ opts) <$> r) then None
  else Some (r ++ [c])%list.

End prometheus.

#[global] Instance CounterOpts_eq_dec : EqDecision prometheus.CounterOpts.
Proof. solve_decision. Defined.

#[global] Instance Counter_eq_dec : EqDecision prometheus.Counter.
Proof. solve_decision. Defined.

(** ** Package common: the metrics of src/common/prometheusmetrics.go *)
Module common.

(** PrometheusMetrics is a list of collected Prometheus Counters and Guages
    that will be exported *)
Record PrometheusMetrics : Type := mkPrometheusMetrics {
  LatestBlockCounter : prometheus.Counter;
  TotalBlocksServedConter : prometheus.Counter;
  SendTransactionsCounter : prometheus.Counter;
  TotalErrors : prometheus.Counter
}.

Definition GetPrometheusMetrics : PrometheusMetrics := {|
  LatestBlockCounter := prometheus.NewCounter {|
    prometheus.Name := "lightwalletd_get_latest_block";
    prometheus.Help := "Number of times GetLatestBlock was called" |};
  TotalBlocksServedConter := prometheus.NewCounter {|
    prometheus.Name := "lightwalletd_total_blocks_served";
    prometheus.Help := "Total number of blocks served by lightwalletd" |};
  SendTransactionsCounter := prometheus.NewCounter {|
    prometheus.Name := "lightwalletd_total_send_transactions";
    prometheus.Help := "Total number of transactions broadcasted by lightwalletd" |};
  TotalErrors := prometheus.NewCounter {|
    prometheus.Name := "lightwalletd_total_errors";
    prometheus.Help := "Total number of errors seen by lightwalletd" |}
|}.

End common.


(** github.com/sirupsen/logrus: the log levels, numbered as the library
    numbers them. *)
Module logrus.

Inductive Level : Type :=
  | PanicLevel | FatalLevel | ErrorLevel | WarnLevel | InfoLevel
  | DebugLevel | TraceLevel.

(** [uint64(level)] *)
Definition to_uint64 (l : Level) : Z :=
  match l with
  | PanicLevel => 0 | FatalLevel => 1 | ErrorLevel => 2 | WarnLevel => 3
  | InfoLevel => 4 | DebugLevel => 5 | TraceLevel => 6
  end.

End logrus.

(** ** Go's [int]

    [int] is taken to be 64 bits wide, two's complement; subtraction wraps
    around. *)
Definition min_int : Z := - 2 ^ 63.
Definition max_int : Z := 2 ^ 63 - 1.

Definition wrap_int (z : Z) : Z := (z + 2 ^ 63) mod 2 ^ 64 - 2 ^ 63.

Definition int_sub (a b : Z) : Z := wrap_int (a - b).

(** ** What a run of the process does

    A run is the list of its effects, in order, and how it ends: with
    [os.Exit(code)] ([inl code]) or with a value ([inr]). *)

Inductive Signal : Type := SIGINT | SIGTERM.

(** [s.String()] for the two signals the process asks for. *)
Definition Signal_String (s : Signal) : string :=
  match s with
  | SIGINT => "interrupt"
  | SIGTERM => "terminated"
  end.

(** The two channels [main] makes, named after its variables. *)
Inductive Chan : Type := stopChan | signals.

(** The cache made by [common.NewBlockCache(capacity, log)]; it is shared by
    reference. *)
Inductive CacheRef : Type := cacheRef (capacity : Z).

Inductive FieldValue : Type :=
  | FString (s : string)
  | FError (e : error).

(** The goroutines [main] starts, with the arguments they are given. *)
Inductive Goroutine : Type :=
  | BlockIngestor (rpcClient : option rpcclient.Client) (cache : CacheRef)
      (stop : Chan) (startHeight : Z)
  | HistoricalBlockIngestor (rpcClient : option rpcclient.Client)
      (cache : CacheRef) (startHeight cacheSize saplingHeight : Z)
  | SignalHandler
  | MetricsServer (metricsport : string)
  | ParamsDownloadHandler (paramsport : string).

Inductive Event : Type :=
  | FlagUsage
  | Println (s : string)
  | Log (level : logrus.Level) (fields : list (string * FieldValue)) (msg : string)
  | SetOutput (path : string)
  | SetFormatterJSON
  | SetLevel (level : Z)
  | NewServer (creds : option (string * string))
  | ReflectionRegister
  | NewBlockCache (size : Z)
  | MakeChan (c : Chan) (capacity : Z)
  | Go (g : Goroutine)
  | SignalNotify (c : Chan) (sigs : list Signal)
  | RegisterCompactTxStreamerServer
  | Serve (addr : string)
  | ServerGracefulStop
  | Send (c : Chan) (v : bool)
  | ServiceGracefulStop
  | CloseFile (path : string).

#[global] Instance Signal_eq_dec : EqDecision Signal.
Proof. solve_decision. Defined.
#[global] Instance Chan_eq_dec : EqDecision Chan.
Proof. solve_decision. Defined.
#[global] Instance CacheRef_eq_dec : EqDecision CacheRef.
Proof. solve_decision. Defined.
#[global] Instance Level_eq_dec : EqDecision logrus.Level.
Proof. solve_decision. Defined.
#[global] Instance FieldValue_eq_dec : EqDecision FieldValue.
Proof. solve_decision. Defined.
#[global] Instance Goroutine_eq_dec : EqDecision Goroutine.
Proof. solve_decision. Defined.
#[global] Instance Event_eq_dec : EqDecision Event.
Proof. solve_decision. Defined.

Definition Proc (A : Type) : Type := list Event * (Z + A).

#[global] Instance Proc_ret : MRet Proc := λ A a, ([], inr a).

#[global] Instance Proc_bind : MBind Proc := λ A B f m,
  match m with
  | (tr, inl code) => (tr, inl code)
  | (tr, inr a) => let '(tr', r) := f a in ((tr ++ tr')%list, r)
  end.

(** One effect. *)
Definition emit (e : Event) : Proc unit := ([e], inr tt).

(** [os.Exit(code)]: nothing after it runs, deferred calls included. *)
Definition os_Exit {A : Type} (code : Z) : Proc A := ([], inl code).

(** [log.WithFields(fields).Fatal(msg)]: logrus logs, then calls
    [os.Exit(1)]. *)
Definition log_Fatal {A : Type} (fields : list (string * FieldValue)) (msg : string)
  : Proc A :=
  emit (Log logrus.FatalLevel fields msg) ;; os_Exit 1.

Definition log_Warn (fields : list (string * FieldValue)) (msg : string)
  : Proc unit :=
  emit (Log logrus.WarnLevel fields msg).

Definition log_Info (fields : list (string * FieldValue)) (msg : string)
  : Proc unit :=
  emit (Log logrus.InfoLevel fields msg).

(** The effects of a run, and how it ended. *)
Definition trace {A : Type} (p : Proc A) : list Event := fst p.
Definition outcome {A : Type} (p : Proc A) : Z + A := snd p.


(** ** cmd/server/main.go *)
Module main.

Record Options : Type := mkOptions {
  bindAddr : string;
  tlsCertPath : string;
  tlsKeyPath : string;
  noTLS : bool;
  logLevel : Z;        (* uint64 *)
  logPath : string;
  zcashConfPath : string;
  cacheSize : Z;       (* int *)
  metricsPort : Z;     (* uint *)
  paramsPort : Z       (* uint *)
}.

(** The values the flag declarations of [main] give to flags that are not
    on the command line. *)
Definition defaultOptions : Options := {|
  bindAddr := "127.0.0.1:9067";
  tlsCertPath := "";
  tlsKeyPath := "";
  noTLS := false;
  logLevel := logrus.to_uint64 logrus.InfoLevel;
  logPath := "";
  zcashConfPath := "";
  cacheSize := 40000;
  paramsPort := 8090;
  metricsPort := 2234
|}.

(** Everything [main] gets from outside: the options as [flag.Parse()]
    leaves them, and what the calls into the operating system, the libraries
    and the packages common and frontend return. *)
Record World : Type := mkWorld {
  args : Options;
  (** [os.OpenFile(path, O_APPEND|O_CREATE|O_WRONLY, 0644)] *)
  os_OpenFile : string -> error;
  (** [credentials.NewServerTLSFromFile(cert, key)] *)
  credentials_NewServerTLSFromFile : string -> string -> error;
  ini_Load : string -> Error + ini.File;
  rpcclient_New : rpcclient.NewT;
  (** [common.GetSaplingInfo(rpcClient)]: sapling activation height, best
      block height, chain name, branch id, error *)
  common_GetSaplingInfo : option rpcclient.Client -> Z * Z * string * string * error;
  (** [frontend.NewSQLiteStreamer(rpcClient, cache, log, metrics)] *)
  frontend_NewSQLiteStreamer : option rpcclient.Client -> CacheRef -> error;
  (** [net.Listen("tcp", addr)] *)
  net_Listen : string -> error;
  (** what [server.Serve(listener)] returns when it returns *)
  server_Serve : error
}.

(** [var metrics = common.GetPrometheusMetrics()] *)
Definition metrics : common.PrometheusMetrics := common.GetPrometheusMetrics.

Section Init.

(** [init] reads two fields of [metrics] that the declaration of
    [PrometheusMetrics] under common does not have; they are taken as
    given. *)
Variable TotalSaplingParamsCounter : common.PrometheusMetrics -> prometheus.Counter.
Variable TotalSproutParamsCounter : common.PrometheusMetrics -> prometheus.Counter.

(** The registrations of [init], on the registry [promRegistry]; [None] is
    a panic of [MustRegister].  (The set-up of the logger, which comes
    first, has no part in them.) *)
Definition init (promRegistry : prometheus.Registry) : option prometheus.Registry :=
  r ← prometheus.MustRegister promRegistry (common.LatestBlockCounter metrics);
  r ← prometheus.MustRegister r (common.TotalErrors metrics);
  r ← prometheus.MustRegister r (common.TotalBlocksServedConter metrics);
  r ← prometheus.MustRegister r (common.SendTransactionsCounter metrics);
  r ← prometheus.MustRegister r (TotalSaplingParamsCounter metrics);
  prometheus.MustRegister r (TotalSproutParamsCounter metrics).

End Init.

(** The goroutine that waits on [signals]: what it does once a signal [s]
    has arrived. *)
Definition signalHandler (s : Signal) : list Event :=
  [ Log logrus.InfoLevel [("signal", FString (Signal_String s))]
      "caught signal, stopping gRPC server";
    (* Stop the server *)
    ServerGracefulStop;
    (* Stop the block ingestor *)
    Send stopChan true ].

Definition main (w : World) : Proc unit :=
  let opts := args w in
  (if bool_decide (zcashConfPath opts = "")
   then emit FlagUsage ;; os_Exit 1
   else mret tt) ;;
  (if negb (noTLS opts)
      && (bool_decide (tlsCertPath opts = "") || bool_decide (tlsKeyPath opts = ""))
   then
     emit (Println "Please specify a TLS certificate/key to use. You can use a self-signed certificate.") ;;
     emit (Println "See 'https://github.com/adityapk00/lightwalletd/blob/master/README.md#running-your-own-zeclite-lightwalletd'") ;;
     os_Exit 1
   else mret tt) ;;
  (if bool_decide (logPath opts ≠ "")
   then
     (* instead write parsable logs for logstash/splunk/etc *)
     match os_OpenFile w (logPath opts) with
     | Some err =>
         log_Fatal [("error", FError (Some err)); ("path", FString (logPath opts))]
           "couldn't open log file"
     | None =>
         emit (SetOutput (logPath opts)) ;;
         emit SetFormatterJSON
     end
   else mret tt) ;;
  (* [logrus.Level] is a uint32 *)
  emit (SetLevel (logLevel opts mod 2 ^ 32)) ;;
  (* gRPC initialization *)
  (if negb (noTLS opts)
      && (bool_decide (tlsCertPath opts ≠ "") && bool_decide (tlsKeyPath opts ≠ ""))
   then
     match credentials_NewServerTLSFromFile w (tlsCertPath opts) (tlsKeyPath opts) with
     | Some err =>
         log_Fatal [("cert_file", FString (tlsCertPath opts));
                    ("key_path", FString (tlsKeyPath opts));
                    ("error", FError (Some err))]
           "couldn't load TLS credentials"
     | None => emit (NewServer (Some (tlsCertPath opts, tlsKeyPath opts)))
     end
   else emit (NewServer None)) ;;
  (* Enable reflection for debugging *)
  (if bool_decide (logrus.to_uint64 logrus.WarnLevel ≤ logLevel opts)%Z
   then emit ReflectionRegister
   else mret tt) ;;
  (* Initialize Zcash RPC client. *)
  rpcClient ←
    (let '(rpcClient, err) :=
       frontend.NewZRPCFromConf (ini_Load w) (rpcclient_New w) (zcashConfPath opts) in
     match err with
     | Some _ =>
         log_Warn [("error", FError err)]
           "zcash.conf failed, will try empty credentials for rpc" ;;
         let '(rpcClient, err) :=
           frontend.NewZRPCFromCreds (rpcclient_New w) "127.0.0.1:23811" "" "" in
         match err with
         | Some _ =>
             log_Warn [("error", FError err)]
               "couldn't start rpc conn. won't be able to send transactions" ;;
             mret rpcClient
         | None => mret rpcClient
         end
     | None => mret rpcClient
     end) ;
  (* Get the sapling activation height from the RPC *)
  let '(saplingHeight, blockHeight, chainName, branchID, err) :=
    common_GetSaplingInfo w rpcClient in
  (match err with
   | Some _ => log_Warn [("error", FError err)] "Unable to get sapling activation height"
   | None => mret tt
   end) ;;
  log_Info [] ("Got sapling height " +:+ pretty saplingHeight +:+ " chain "
               +:+ chainName +:+ " branchID " +:+ branchID) ;;
  (* Initialize the cache *)
  emit (NewBlockCache (cacheSize opts)) ;;
  let cache := cacheRef (cacheSize opts) in
  emit (MakeChan stopChan 1) ;;
  (* Start the block cache importer at 100 blocks, so that the server is
     ready immediately.  The remaining blocks are added historically *)
  let cacheStart := int_sub blockHeight 100 in
  let cacheStart := if bool_decide (cacheStart < saplingHeight)%Z
                    then saplingHeight else cacheStart in
  (* Start the ingestor *)
  emit (Go (BlockIngestor rpcClient cache stopChan cacheStart)) ;;
  (* Add historical blocks also *)
  emit (Go (HistoricalBlockIngestor rpcClient cache (int_sub cacheStart 1)
              (cacheSize opts) saplingHeight)) ;;
  (* Signal handler for graceful stops *)
  emit (MakeChan signals 1) ;;
  emit (SignalNotify signals [SIGINT; SIGTERM]) ;;
  emit (Go SignalHandler) ;;
  (* Start the metrics server *)
  emit (Go (MetricsServer (":" +:+ pretty (metricsPort opts)))) ;;
  (* Start the download params handler *)
  log_Info [] "Starting params handler" ;;
  emit (Go (ParamsDownloadHandler (":" +:+ pretty (paramsPort opts)))) ;;
  (* Start the GRPC server *)
  log_Info [] ("Starting gRPC server on " +:+ bindAddr opts) ;;
  (* Compact transaction service initialization *)
  match frontend_NewSQLiteStreamer w rpcClient cache with
  | Some err => log_Fatal [("error", FError (Some err))] "couldn't create SQL backend"
  | None =>
      (* Register service *)
      emit RegisterCompactTxStreamerServer ;;
      (* Start listening *)
      match net_Listen w (bindAddr opts) with
      | Some err =>
          log_Fatal [("bind_addr", FString (bindAddr opts)); ("error", FError (Some err))]
            "couldn't create listener"
      | None =>
          emit (Serve (bindAddr opts)) ;;
          match server_Serve w with
          | Some err => log_Fatal [("error", FError (Some err))] "gRPC server exited"
          | None =>
              (* the deferred calls, last one first *)
              emit ServiceGracefulStop ;;
              if bool_decide (logPath opts ≠ "")
              then emit (CloseFile (logPath opts))
              else mret tt
          end
      end
  end.

End main.


(** ** The block cache

    The cache that [main] makes with [common.NewBlockCache] lives in
    package common, outside the files embedded above; it is modelled from
    the specification's description of it (Data model, and BlockCache under
    Component design). *)
Module blockcache.

#[global] Instance Byte_eq_dec : EqDecision byte := Byte.byte_eq_dec.

(** Modelled from the spec: a compact transaction record, of which the
    cache only needs the identifying hash. *)
Record CompactTx : Type := mkCompactTx { txHash : list byte }.

(** Modelled from the spec: CompactBlock, with [height], [hash],
    [prevHash], [timestamp] and the ordered [transactions]. *)
Record CompactBlock : Type := mkCompactBlock {
  height : Z;
  hash : list byte;
  prevHash : list byte;
  timestamp : Z;
  transactions : list CompactTx
}.

(** Modelled from the spec: BlockCache, a mapping from height to
    CompactBlock for a closed interval [lo, hi] of heights ([window], [None]
    while the cache is empty) and the maximum number of heights retained. *)
Record BlockCache : Type := mkBlockCache {
  blocks : gmap Z CompactBlock;
  window : option (Z * Z);
  capacity : Z
}.

(** Modelled from the spec: the cache is created empty with a fixed
    capacity. *)
Definition NewBlockCache (capacity : Z) : BlockCache :=
  {| blocks := ∅; window := None; capacity := capacity |}.

(** Modelled from the spec: GetBlock is a point lookup that returns
    NotFound ([None]) if the height is outside [lo, hi] or the cache is
    empty. *)
Definition GetBlock (c : BlockCache) (h : Z) : option CompactBlock :=
  match window c with
  | Some (lo, hi) => if bool_decide (lo ≤ h ≤ hi)%Z then blocks c !! h else None
  | None => None
  end.

(** Modelled from the spec: GetLatestHeight returns [hi], or Empty. *)
Definition GetLatestHeight (c : BlockCache) : option Z :=
  snd <$> window c.

(** Modelled from the spec: the loop of EvictOldestIfOverCapacity, "while
    hi - lo + 1 > capacity, removes the entry at lo and increments lo".
    [fuel] bounds the number of rounds. *)
Fixpoint evict_loop (fuel : nat) (bs : gmap Z CompactBlock) (lo hi cap : Z)
  : gmap Z CompactBlock * Z :=
  match fuel with
  | O => (bs, lo)
  | S fuel' =>
      if bool_decide (hi - lo + 1 > cap)%Z
      then evict_loop fuel' (delete lo bs) (lo + 1) hi cap
      else (bs, lo)
  end.

(** Modelled from the spec: EvictOldestIfOverCapacity.  The loop is given
    as many rounds as it can take, [hi - lo + 1 - capacity]; a window that
    the loop empties leaves an empty cache. *)
Definition EvictOldestIfOverCapacity (c : BlockCache) : BlockCache :=
  match window c with
  | None => c
  | Some (lo, hi) =>
      let '(bs, lo') :=
        evict_loop (Z.to_nat (hi - lo + 1 - capacity c)) (blocks c) lo hi (capacity c) in
      {| blocks := bs;
         window := if bool_decide (lo' ≤ hi)%Z then Some (lo', hi) else None;
         capacity := capacity c |}
  end.

(** Modelled from the spec: the two ways in which Add rejects a block. *)
Inductive AddError : Type := HeightGap | HashMismatch.

(** Modelled from the spec: Add appends at [hi+1] (live path) or prepends at
    [lo-1] (historical path); it rejects, with an error, a block that would
    create a height gap or a hash mismatch with the adjacent resident
    block.  Eviction runs after every successful Add from the live side.
    The first block of an empty cache has no neighbour and is taken as it
    is. *)
Definition Add (b : CompactBlock) (c : BlockCache) : AddError + BlockCache :=
  match window c with
  | None =>
      inr (EvictOldestIfOverCapacity
             {| blocks := <[height b := b]> (blocks c);
                window := Some (height b, height b);
                capacity := capacity c |})
  | Some (lo, hi) =>
      if bool_decide (height b = hi + 1)%Z then
        match blocks c !! hi with
        | Some tip =>
            if bool_decide (prevHash b = hash tip)
            then inr (EvictOldestIfOverCapacity
                        {| blocks := <[height b := b]> (blocks c);
                           window := Some (lo, height b);
                           capacity := capacity c |})
            else inl HashMismatch
        | None => inl HeightGap
        end
      else if bool_decide (height b = lo - 1)%Z then
        match blocks c !! lo with
        | Some first =>
            if bool_decide (prevHash first = hash b)
            then inr {| blocks := <[height b := b]> (blocks c);
                        window := Some (height b, hi);
                        capacity := capacity c |}
            else inl HashMismatch
        | None => inl HeightGap
        end
      else inl HeightGap
  end.

(** Modelled from the spec: Truncate drops all resident entries at
    [fromHeight] and above. *)
Definition Truncate (fromHeight : Z) (c : BlockCache) : BlockCache :=
  match window c with
  | None => c
  | Some (lo, hi) =>
      {| blocks := filter (λ kv, (kv.1 < fromHeight)%Z) (blocks c);
         window := if bool_decide (fromHeight ≤ lo)%Z then None
                   else Some (lo, Z.min hi (fromHeight - 1));
         capacity := capacity c |}
  end.

(** The operations that change the cache. *)
Inductive Op : Type :=
  | OpAdd (b : CompactBlock)
  | OpTruncate (fromHeight : Z)
  | OpEvict.

(** One operation; a rejected Add leaves the cache as it was. *)
Definition step (c : BlockCache) (op : Op) : BlockCache :=
  match op with
  | OpAdd b => match Add b c with inr c' => c' | inl _ => c end
  | OpTruncate h => Truncate h c
  | OpEvict => EvictOldestIfOverCapacity c
  end.

(** The cache after a sequence of operations. *)
Definition run (ops : list Op) (c : BlockCache) : BlockCache :=
  foldl step c ops.

(** The states a cache of capacity [cap] can be in. *)
Inductive reachable (cap : Z) : BlockCache -> Prop :=
  | reachable_new : reachable cap (NewBlockCache cap)
  | reachable_step c op : reachable cap c -> reachable cap (step c op).

(** The hash chain of a map of blocks: blocks at adjacent heights are
    linked. *)
Definition linked (bs : gmap Z CompactBlock) : Prop :=
  ∀ h b1 b2, bs !! h = Some b1 → bs !! (h + 1)%Z = Some b2 → prevHash b2 = hash b1.

(** The resident heights are those of the window. *)
Definition windowed (c : BlockCache) : Prop :=
  match window c with
  | None => blocks c = ∅
  | Some (lo, hi) => (lo ≤ hi)%Z ∧ ∀ h, is_Some (blocks c !! h) ↔ (lo ≤ h ≤ hi)%Z
  end.

End blockcache.


(** * Properties *)

(** ** Runs *)

Lemma trace_bind {A B : Type} (m : Proc A) (f : A → Proc B) :
  trace (m ≫= f) =
  (trace m ++ match outcome m with
              | inl _ => []
              | inr a => trace (f a)
              end)%list.
Proof.
  destruct m as [tr [code|a]]; cbn.
  - by rewrite app_nil_r.
  - by destruct (f a).
Qed.

Lemma outcome_bind {A B : Type} (m : Proc A) (f : A → Proc B) :
  outcome (m ≫= f) =
  match outcome m with
  | inl code => inl code
  | inr a => outcome (f a)
  end.
Proof.
  destruct m as [tr [code|a]]; cbn; [done|]. by destruct (f a).
Qed.

(** An effect of the first part of a run is an effect of the run. *)
Lemma elem_trace_bind_l {A B : Type} (m : Proc A) (f : A → Proc B) (e : Event) :
  e ∈ trace m → e ∈ trace (m ≫= f).
Proof. rewrite trace_bind. set_solver. Qed.

(** An effect of the rest of a run is an effect of the run, when its first
    part does not exit. *)
Lemma elem_trace_bind_r {A B : Type} (m : Proc A) (f : A → Proc B) (a : A) (e : Event) :
  outcome m = inr a → e ∈ trace (f a) → e ∈ trace (m ≫= f).
Proof. intros Hm He. rewrite trace_bind, Hm. set_solver. Qed.

(** The goroutines a run has started, in order. *)
Definition goroutines (tr : list Event) : list Goroutine :=
  omap (λ e, match e with Go g => Some g | _ => None end) tr.

Lemma elem_of_goroutines (tr : list Event) (g : Goroutine) :
  g ∈ goroutines tr ↔ Go g ∈ tr.
Proof.
  unfold goroutines. rewrite list_elem_of_omap. split.
  - intros (e & He & Hg). destruct e; naive_solver.
  - intros Hg. by exists (Go g).
Qed.

Lemma goroutines_bind {A B : Type} (m : Proc A) (f : A → Proc B) :
  goroutines (trace (m ≫= f)) =
  (goroutines (trace m) ++ match outcome m with
                           | inl _ => []
                           | inr a => goroutines (trace (f a))
                           end)%list.
Proof.
  rewrite trace_bind. unfold goroutines. rewrite omap_app.
  by destruct (outcome m).
Qed.

(** ** The RPC client (package frontend) *)

(** [errors.Wrap] gives an error exactly when it is given one. *)
Lemma Wrap_nil_iff (err : error) (message : string) :
  errors.Wrap err message = None ↔ err = None.
Proof. destruct err; naive_solver. Qed.

(** The credentials of a loaded config file are usable when both are set. *)
Definition credentials_set (cfg : ini.File) : Prop :=
  ini.Key (ini.Section cfg "") "rpcuser" ≠ ""
  ∧ ini.Key (ini.Section cfg "") "rpcpassword" ≠ "".

#[global] Instance credentials_set_dec cfg : Decision (credentials_set cfg).
Proof. unfold credentials_set. apply _. Defined.

(** A config file with nothing in it, one with credentials only, and one
    with everything set; a constructor that keeps the configuration. *)
Definition conf_empty : ini.File := ini.mkFile ∅.

Definition conf_creds : ini.File :=
  ini.mkFile {[ "" := {[ "rpcuser" := "zero"; "rpcpassword" := "secret" ]} ]}.

Definition conf_full : ini.File :=
  ini.mkFile {[ "" := {[ "rpcbind" := "10.0.0.7"; "rpcport" := "8232";
                         "rpcuser" := "zero"; "rpcpassword" := "secret" ]} ]}.

Definition New_keep : rpcclient.NewT :=
  λ connCfg _, (Some (rpcclient.mkClient connCfg), None).

(** C2 (as the code behaves): for a config file that parses but in which
    rpcuser or rpcpassword is empty or absent, [NewZRPCFromConf] returns no
    client and a nil error: the error it means to return wraps the nil
    error of the successful load, and [errors.Wrap] of nil is nil. *)
Theorem NewZRPCFromConf_missing_credentials
    (ini_Load : string → Error + ini.File) (New : rpcclient.NewT)
    (confPath : string) (cfg : ini.File) :
  ini_Load confPath = inr cfg →
  ¬ credentials_set cfg →
  frontend.NewZRPCFromConf ini_Load New confPath = (None, None).
Proof.
  intros Hload Hcreds. unfold frontend.NewZRPCFromConf. rewrite Hload.
  destruct (decide (ini.Key (ini.Section cfg "") "rpcuser" = "")) as [Hu|Hu].
  - by rewrite (bool_decide_eq_true_2 _ Hu).
  - destruct (decide (ini.Key (ini.Section cfg "") "rpcpassword" = "")) as [Hp|Hp].
    + by rewrite (bool_decide_eq_true_2 _ Hp), orb_true_r.
    + by destruct Hcreds.
Qed.

Lemma NewZRPCFromConf_missing_credentials_witness :
  frontend.NewZRPCFromConf (λ _, inr conf_empty) New_keep "zero.conf" = (None, None).
Proof.
  apply (NewZRPCFromConf_missing_credentials _ _ _ conf_empty).
  - reflexivity.
  - vm_compute. intros [H _]. by apply H.
Defined.

(** C6: for every address, username and password, [NewZRPCFromCreds] hands
    to [rpcclient.New] a configuration with TLS disabled and HTTP POST mode
    enabled (and that address, username and password), with nil
    notification handlers, and returns what [rpcclient.New] returns. *)
Theorem NewZRPCFromCreds_plaintext_post
    (New : rpcclient.NewT) (addr username password : string) :
  ∃ connCfg : rpcclient.ConnConfig,
    frontend.NewZRPCFromCreds New addr username password = New connCfg None
    ∧ rpcclient.DisableTLS connCfg = true
    ∧ rpcclient.HTTPPostMode connCfg = true
    ∧ rpcclient.Host connCfg = addr
    ∧ rpcclient.User connCfg = username
    ∧ rpcclient.Pass connCfg = password
    ∧ frontend.NewZRPCFromCreds New_keep addr username password
      = (Some (rpcclient.mkClient connCfg), None).
Proof. by eexists (rpcclient.mkConnConfig _ _ _ _ _). Qed.

(** The value used for a setting: the configured one, or the default when
    the configured one is empty. *)
Definition or_default (configured default : string) : string :=
  if decide (configured = "") then default else configured.

(** C7: when the config file parses and has both credentials,
    [NewZRPCFromConf] connects, through [NewZRPCFromCreds], to the joined
    host:port of rpcbind and rpcport, where a setting that the file omits
    (or leaves empty) is replaced by its default, host 127.0.0.1 and port
    23811. *)
Theorem NewZRPCFromConf_address_defaults
    (ini_Load : string → Error + ini.File) (New : rpcclient.NewT)
    (confPath : string) (cfg : ini.File) :
  ini_Load confPath = inr cfg →
  credentials_set cfg →
  ∃ host port : string,
    frontend.NewZRPCFromConf ini_Load New confPath
    = frontend.NewZRPCFromCreds New (net.JoinHostPort host port)
        (ini.Key (ini.Section cfg "") "rpcuser")
        (ini.Key (ini.Section cfg "") "rpcpassword")
    ∧ host = or_default (ini.Key (ini.Section cfg "") "rpcbind") "127.0.0.1"
    ∧ port = or_default (ini.Key (ini.Section cfg "") "rpcport") "23811"
    ∧ (ini.Section cfg "" !! "rpcbind" = None → host = "127.0.0.1")
    ∧ (ini.Section cfg "" !! "rpcport" = None → port = "23811").
Proof.
  intros Hload [Hu Hp]. eexists _, _. split; [|split; [done|split; [done|]]].
  - unfold frontend.NewZRPCFromConf. rewrite Hload.
    rewrite (bool_decide_eq_false_2 _ Hu), (bool_decide_eq_false_2 _ Hp).
    reflexivity.
  - unfold or_default, ini.Key. split; intros ->; reflexivity.
Qed.

Lemma NewZRPCFromConf_address_defaults_witness :
  ∃ host port : string,
    frontend.NewZRPCFromConf (λ _, inr conf_creds) New_keep "zero.conf"
    = frontend.NewZRPCFromCreds New_keep (net.JoinHostPort host port)
        (ini.Key (ini.Section conf_creds "") "rpcuser")
        (ini.Key (ini.Section conf_creds "") "rpcpassword")
    ∧ host = or_default (ini.Key (ini.Section conf_creds "") "rpcbind") "127.0.0.1"
    ∧ port = or_default (ini.Key (ini.Section conf_creds "") "rpcport") "23811"
    ∧ (ini.Section conf_creds "" !! "rpcbind" = None → host = "127.0.0.1")
    ∧ (ini.Section conf_creds "" !! "rpcport" = None → port = "23811").
Proof.
  apply (NewZRPCFromConf_address_defaults (λ _, inr conf_creds) New_keep "zero.conf" conf_creds).
  - reflexivity.
  - split; vm_compute; discriminate.
Defined.

(** The address on examples: defaults for a file with credentials only, the
    configured values when they are there, and a host with a colon. *)
Example NewZRPCFromConf_examples :
  frontend.NewZRPCFromConf (λ _, inr conf_creds) New_keep "zero.conf"
  = (Some (rpcclient.mkClient
             (rpcclient.mkConnConfig "127.0.0.1:23811" "zero" "secret" true true)), None)
  ∧ frontend.NewZRPCFromConf (λ _, inr conf_full) New_keep "zero.conf"
    = (Some (rpcclient.mkClient
               (rpcclient.mkConnConfig "10.0.0.7:8232" "zero" "secret" true true)), None)
  ∧ net.JoinHostPort "::1" "23811" = "[::1]:23811".
Proof. by vm_compute. Qed.

(** ** Startup ([main]) *)

(** The goroutines that [main] starts once it has a client [c] and the
    node's heights: the live ingestor, the historical ingestor, the signal
    handler, the metrics server and the params handler. *)
Definition started (w : main.World) (c : option rpcclient.Client) (sh bh : Z)
  : list Goroutine :=
  let opts := main.args w in
  let live := Z.max (int_sub bh 100) sh in
  [ BlockIngestor c (cacheRef (main.cacheSize opts)) stopChan live;
    HistoricalBlockIngestor c (cacheRef (main.cacheSize opts)) (int_sub live 1)
      (main.cacheSize opts) sh;
    SignalHandler;
    MetricsServer (":" +:+ pretty (main.metricsPort opts));
    ParamsDownloadHandler (":" +:+ pretty (main.paramsPort opts)) ].

Definition starts_all_or_none (w : main.World) (p : Proc unit) : Prop :=
  goroutines (trace p) = [] ∨
  ∃ c sh bh chain br err,
    main.common_GetSaplingInfo w c = (sh, bh, chain, br, err)
    ∧ goroutines (trace p) = started w c sh bh.

Lemma starts_bind {A : Type} (w : main.World) (m : Proc A) (f : A → Proc unit) :
  goroutines (trace m) = [] →
  (∀ a, starts_all_or_none w (f a)) →
  starts_all_or_none w (m ≫= f).
Proof.
  intros Hm Hf. unfold starts_all_or_none. rewrite goroutines_bind, Hm.
  destruct (outcome m) as [code|a]; [by left|]. apply Hf.
Qed.

Lemma live_start_max (cs sh : Z) :
  (if bool_decide (cs < sh)%Z then sh else cs) = Z.max cs sh.
Proof. case_bool_decide; lia. Qed.

Ltac unfold_actions :=
  unfold log_Fatal, log_Warn, log_Info, emit, os_Exit, mret, Proc_ret.

Ltac no_goroutines :=
  repeat (case_bool_decide || case_match); try reflexivity.

(** [main] starts no goroutine at all, or the five of [started], in that
    order, for the client it has and the heights the node reports to that
    client. *)
Lemma main_goroutines (w : main.World) : starts_all_or_none w (main.main w).
Proof.
  unfold main.main.
  do 6 (apply starts_bind; [ no_goroutines | intros _ ]).
  apply starts_bind; [ | intros rpcClient ].
  { unfold frontend.NewZRPCFromCreds. no_goroutines. }
  destruct (main.common_GetSaplingInfo w rpcClient)
    as [[[[sh bh] chain] br] err] eqn:Hinfo.
  right. exists rpcClient, sh, bh, chain, br, err. split; [done|].
  rewrite live_start_max. unfold_actions.
  destruct err as [e|]; cbn -[pretty String.append];
    repeat (case_bool_decide || case_match); simplify_eq; reflexivity.
Qed.

(** What follows from one started live ingestor. *)
Lemma main_live_ingestor (w : main.World) c k ch live :
  Go (BlockIngestor c k ch live) ∈ trace (main.main w) →
  ∃ sh bh chain br err,
    main.common_GetSaplingInfo w c = (sh, bh, chain, br, err)
    ∧ k = cacheRef (main.cacheSize (main.args w))
    ∧ ch = stopChan
    ∧ live = Z.max (int_sub bh 100) sh
    ∧ goroutines (trace (main.main w)) = started w c sh bh.
Proof.
  intros Hin%elem_of_goroutines.
  destruct (main_goroutines w) as [Hnone|(c' & sh & bh & chain & br & err & Hinfo & Hall)].
  - rewrite Hnone in Hin. by apply elem_of_nil in Hin.
  - rewrite Hall in Hin. unfold started in Hin.
    repeat (apply elem_of_cons in Hin as [Hin|Hin]; [try discriminate|]).
    + simplify_eq. by exists sh, bh, chain, br, err.
    + by apply elem_of_nil in Hin.
Qed.

(** The options pass the two checks on flags, and the files the options
    name can be opened and loaded. *)
Definition flags_ok (opts : main.Options) : Prop :=
  main.zcashConfPath opts ≠ ""
  ∧ (main.noTLS opts = true
     ∨ (main.tlsCertPath opts ≠ "" ∧ main.tlsKeyPath opts ≠ "")).

Definition files_ok (w : main.World) : Prop :=
  (main.logPath (main.args w) ≠ "" →
   main.os_OpenFile w (main.logPath (main.args w)) = None)
  ∧ (main.noTLS (main.args w) = false →
     main.credentials_NewServerTLSFromFile w
       (main.tlsCertPath (main.args w)) (main.tlsKeyPath (main.args w)) = None).

(** Stepping through a run: [pass] steps over a first part that does not
    exit, [here] stops in the first part. *)
Ltac outcome_ok :=
  unfold_actions;
  repeat case_bool_decide;
  repeat match goal with
         | |- context [main.noTLS ?o] => destruct (main.noTLS o) eqn:?
         end;
  cbn;
  repeat case_match; simplify_eq;
  solve [ reflexivity | intuition congruence ].

Ltac pass := eapply elem_trace_bind_r; [ outcome_ok | cbv beta ].

Ltac here := apply elem_trace_bind_l.

(** The client made from empty credentials. *)
Definition fallback_client (w : main.World) : option rpcclient.Client :=
  fst (frontend.NewZRPCFromCreds (main.rpcclient_New w) "127.0.0.1:23811" "" "").

(** The client [main] goes on with. *)
Definition resolved_client (w : main.World) : option rpcclient.Client :=
  match frontend.NewZRPCFromConf (main.ini_Load w) (main.rpcclient_New w)
          (main.zcashConfPath (main.args w)) with
  | (_, Some _) => fallback_client w
  | (c, None) => c
  end.

(** When the flags and the files are in order, [main] starts its five
    goroutines, whatever the RPC set-up gave. *)
Lemma main_starts (w : main.World) sh bh chain br err :
  flags_ok (main.args w) → files_ok w →
  main.common_GetSaplingInfo w (resolved_client w) = (sh, bh, chain, br, err) →
  goroutines (trace (main.main w)) = started w (resolved_client w) sh bh.
Proof.
  intros [Hconf Htls] [Hlog Hcert] Hinfo.
  assert (Go (BlockIngestor (resolved_client w)
                (cacheRef (main.cacheSize (main.args w))) stopChan
                (Z.max (int_sub bh 100) sh)) ∈ trace (main.main w)) as Hin.
  { unfold main.main. do 6 pass.
    eapply (elem_trace_bind_r _ _ (resolved_client w)).
    { unfold resolved_client, fallback_client.
      destruct (frontend.NewZRPCFromConf _ _ _) as [c [e|]]; [|reflexivity].
      rewrite outcome_bind. cbn.
      by destruct (frontend.NewZRPCFromCreds _ _ _ _) as [c' [e'|]]. }
    cbv beta. rewrite Hinfo, live_start_max.
    do 4 pass. here. constructor. }
  apply main_live_ingestor in Hin
    as (sh' & bh' & chain' & br' & err' & Hinfo' & _ & _ & _ & Hall).
  rewrite Hinfo in Hinfo'. by simplify_eq.
Qed.

(** Worlds for the examples: a node at height 1100000 with sapling
    activation at 492850, every file and socket in order, the config file as
    [load] gives it, and the options of a command line with [-conf-file
    zero.conf] and the given TLS flags. *)
Definition options_for (cert key : string) (no_tls : bool) : main.Options := {|
  main.bindAddr := main.bindAddr main.defaultOptions;
  main.tlsCertPath := cert;
  main.tlsKeyPath := key;
  main.noTLS := no_tls;
  main.logLevel := main.logLevel main.defaultOptions;
  main.logPath := main.logPath main.defaultOptions;
  main.zcashConfPath := "zero.conf";
  main.cacheSize := main.cacheSize main.defaultOptions;
  main.metricsPort := main.metricsPort main.defaultOptions;
  main.paramsPort := main.paramsPort main.defaultOptions
|}.

Definition world_for (opts : main.Options) (load : string → Error + ini.File)
  : main.World := {|
  main.args := opts;
  main.os_OpenFile := λ _, None;
  main.credentials_NewServerTLSFromFile := λ _ _, None;
  main.ini_Load := load;
  main.rpcclient_New := New_keep;
  main.common_GetSaplingInfo := λ _, (492850, 1100000, "main", "76b809bb", None);
  main.frontend_NewSQLiteStreamer := λ _ _, None;
  main.net_Listen := λ _, None;
  main.server_Serve := None
|}.

(** TLS material and a good config file. *)
Definition w_tls : main.World :=
  world_for (options_for "cert.pem" "key.pem" false) (λ _, inr conf_creds).

(** TLS material, and a config file that cannot be read. *)
Definition w_unreadable_conf : main.World :=
  world_for (options_for "cert.pem" "key.pem" false)
    (λ _, inl (ErrNew "open zero.conf: no such file or directory")).

(** No TLS material, TLS not disabled. *)
Definition w_no_tls_material : main.World :=
  world_for (options_for "" "" false) (λ _, inr conf_creds).

(** No TLS material, TLS disabled with [-no-tls]. *)
Definition w_no_tls_flag : main.World :=
  world_for (options_for "" "" true) (λ _, inr conf_creds).

(** The client for the node at the default address with the credentials of
    [conf_creds], and the one with empty credentials. *)
Definition client_creds : option rpcclient.Client :=
  Some (rpcclient.mkClient
          (rpcclient.mkConnConfig "127.0.0.1:23811" "zero" "secret" true true)).

Definition client_empty : option rpcclient.Client :=
  Some (rpcclient.mkClient
          (rpcclient.mkConnConfig "127.0.0.1:23811" "" "" true true)).

Lemma flags_ok_w_tls : flags_ok (main.args w_tls).
Proof. split; [done|]. right. by split. Qed.

Lemma files_ok_world_for opts load : files_ok (world_for opts load).
Proof. by split. Qed.

(** C3, as stated, fails: with a config file that cannot be read,
    [NewZRPCFromConf] fails, and yet the process starts its goroutines with
    a client that has empty credentials, and serves; [main] ends by
    returning once [server.Serve] has returned, not by an exit at
    startup. *)
Lemma credentials_failure_does_not_exit :
  frontend.NewZRPCFromConf (main.ini_Load w_unreadable_conf)
    (main.rpcclient_New w_unreadable_conf)
    (main.zcashConfPath (main.args w_unreadable_conf))
  = (None, Some (ErrWithMessage (ErrNew "open zero.conf: no such file or directory")
                   "failed to read config file"))
  ∧ goroutines (trace (main.main w_unreadable_conf))
    = [ BlockIngestor client_empty (cacheRef 40000) stopChan 1099900;
        HistoricalBlockIngestor client_empty (cacheRef 40000) 1099899 40000 492850;
        SignalHandler; MetricsServer ":2234"; ParamsDownloadHandler ":8090" ]
  ∧ Serve "127.0.0.1:9067" ∈ trace (main.main w_unreadable_conf)
  ∧ outcome (main.main w_unreadable_conf) = inr tt.
Proof.
  split; [reflexivity|]. split; [by vm_compute|]. split; [|by vm_compute].
  apply (bool_decide_unpack _). by vm_compute.
Qed.

(** C3, amended: when [NewZRPCFromConf] fails for the configured conf-file
    path, the process does not exit on that account: it logs the warning
    "zcash.conf failed, will try empty credentials for rpc", makes a client
    for 127.0.0.1:23811 with empty credentials, and starts its goroutines
    with that client. *)
Theorem credentials_failure_falls_back
    (w : main.World) (c : option rpcclient.Client) (e : Error) :
  flags_ok (main.args w) → files_ok w →
  frontend.NewZRPCFromConf (main.ini_Load w) (main.rpcclient_New w)
    (main.zcashConfPath (main.args w)) = (c, Some e) →
  Log logrus.WarnLevel [("error", FError (Some e))]
      "zcash.conf failed, will try empty credentials for rpc" ∈ trace (main.main w)
  ∧ ∃ sh bh, goroutines (trace (main.main w)) = started w (fallback_client w) sh bh.
Proof.
  intros Hflags Hfiles Hfail. split.
  - destruct Hflags as [Hconf Htls], Hfiles as [Hlog Hcert].
    unfold main.main. do 6 pass. here. rewrite Hfail. here. constructor.
  - destruct (main.common_GetSaplingInfo w (resolved_client w))
      as [[[[sh bh] chain] br] err] eqn:Hinfo.
    exists sh, bh. rewrite (main_starts w sh bh chain br err Hflags Hfiles Hinfo).
    unfold resolved_client. by rewrite Hfail.
Qed.

Lemma credentials_failure_falls_back_witness :
  Log logrus.WarnLevel
      [("error", FError (Some (ErrWithMessage
                                 (ErrNew "open zero.conf: no such file or directory")
                                 "failed to read config file")))]
      "zcash.conf failed, will try empty credentials for rpc"
    ∈ trace (main.main w_unreadable_conf)
  ∧ ∃ sh bh, goroutines (trace (main.main w_unreadable_conf))
             = started w_unreadable_conf (fallback_client w_unreadable_conf) sh bh.
Proof.
  apply (credentials_failure_falls_back w_unreadable_conf None).
  - apply flags_ok_w_tls.
  - apply files_ok_world_for.
  - reflexivity.
Defined.

(** *** Shutdown *)

(** The channels a goroutine waits on. *)
Definition listens_on (g : Goroutine) : list Chan :=
  match g with
  | BlockIngestor _ _ stop _ => [stop]
  | SignalHandler => [signals]
  | _ => []
  end.

(** The signal handler, on signal [s], sends on a channel that [g] waits
    on. *)
Definition signalled (s : Signal) (g : Goroutine) : Prop :=
  ∃ ch v, Send ch v ∈ main.signalHandler s ∧ ch ∈ listens_on g.

Lemma signalled_iff (s : Signal) (g : Goroutine) :
  signalled s g ↔ stopChan ∈ listens_on g.
Proof.
  unfold signalled, main.signalHandler. split.
  - intros (ch & v & Hsend & Hch).
    repeat (apply elem_of_cons in Hsend as [Hsend|Hsend]; [try discriminate|]).
    + by simplify_eq.
    + by apply elem_of_nil in Hsend.
  - intros Hch. exists stopChan, true. split; [|done].
    do 2 apply list_elem_of_further. constructor.
Qed.

(** C4, as stated, fails: the historical ingestor that [main] starts waits
    on no channel, and the signal handler does not signal it. *)
Lemma historical_ingestor_not_signalled :
  Go (HistoricalBlockIngestor client_creds (cacheRef 40000) 1099899 40000 492850)
    ∈ trace (main.main w_tls)
  ∧ ¬ signalled SIGINT
        (HistoricalBlockIngestor client_creds (cacheRef 40000) 1099899 40000 492850)
  ∧ ¬ signalled SIGTERM
        (HistoricalBlockIngestor client_creds (cacheRef 40000) 1099899 40000 492850).
Proof.
  split; [apply (bool_decide_unpack _); by vm_compute|].
  split; rewrite signalled_iff; cbn; apply not_elem_of_nil.
Qed.

(** C4, amended: when SIGINT or SIGTERM is received, the handler stops the
    gRPC server gracefully and then sends one value, on [stopChan]; of the
    goroutines [main] has started, the one so signalled is the live
    ingestor (BlockIngestor), which was given [stopChan]; the historical
    ingestor is given no channel and is not signalled. *)
Theorem shutdown_signals_live_ingestor_only (w : main.World) (s : Signal) (g : Goroutine) :
  Go g ∈ trace (main.main w) →
  (signalled s g ↔ ∃ c k live, g = BlockIngestor c k stopChan live)
  ∧ (∀ c k h n f, g = HistoricalBlockIngestor c k h n f → ¬ signalled s g)
  ∧ ServerGracefulStop ∈ main.signalHandler s
  ∧ (∀ ch v, Send ch v ∈ main.signalHandler s → ch = stopChan ∧ v = true).
Proof.
  intros Hg%elem_of_goroutines. split; [|split; [|split]].
  - rewrite signalled_iff.
    destruct (main_goroutines w) as [Hnone|(c & sh & bh & chain & br & err & _ & Hall)].
    + rewrite Hnone in Hg. by apply elem_of_nil in Hg.
    + rewrite Hall in Hg. unfold started in Hg.
      repeat (apply elem_of_cons in Hg as [->|Hg]); cbn.
      * split; [eauto|]. intros _. constructor.
      * split; [by intros ?%elem_of_nil|]. by intros (? & ? & ? & ?).
      * split; [|by intros (? & ? & ? & ?)].
        intros [?|?%elem_of_nil]%elem_of_cons; done.
      * split; [by intros ?%elem_of_nil|]. by intros (? & ? & ? & ?).
      * split; [by intros ?%elem_of_nil|]. by intros (? & ? & ? & ?).
      * by apply elem_of_nil in Hg.
  - intros c k h n f ->. rewrite signalled_iff. cbn. apply not_elem_of_nil.
  - unfold main.signalHandler. apply list_elem_of_further. constructor.
  - intros ch v Hsend. unfold main.signalHandler in Hsend.
    repeat (apply elem_of_cons in Hsend as [Hsend|Hsend]; [try discriminate|]).
    + by simplify_eq.
    + by apply elem_of_nil in Hsend.
Qed.

Lemma shutdown_signals_live_ingestor_only_witness :
  (signalled SIGTERM (BlockIngestor client_creds (cacheRef 40000) stopChan 1099900)
   ↔ ∃ c k live,
       BlockIngestor client_creds (cacheRef 40000) stopChan 1099900
       = BlockIngestor c k stopChan live)
  ∧ (∀ c k h n f,
       BlockIngestor client_creds (cacheRef 40000) stopChan 1099900
       = HistoricalBlockIngestor c k h n f →
       ¬ signalled SIGTERM (BlockIngestor client_creds (cacheRef 40000) stopChan 1099900))
  ∧ ServerGracefulStop ∈ main.signalHandler SIGTERM
  ∧ (∀ ch v, Send ch v ∈ main.signalHandler SIGTERM → ch = stopChan ∧ v = true).
Proof.
  apply (shutdown_signals_live_ingestor_only w_tls SIGTERM).
  apply (bool_decide_unpack _). by vm_compute.
Defined.

(** *** The heights the ingestors start from *)

Lemma wrap_int_id (z : Z) : (min_int ≤ z ≤ max_int)%Z → wrap_int z = z.
Proof.
  unfold wrap_int, min_int, max_int. intros Hz.
  rewrite Z.mod_small by lia. lia.
Qed.

Lemma wrap_int_range (z : Z) : (min_int ≤ wrap_int z ≤ max_int)%Z.
Proof.
  unfold wrap_int, min_int, max_int.
  pose proof (Z.mod_pos_bound (z + 2 ^ 63) (2 ^ 64)). lia.
Qed.

(** In Go's arithmetic, with no condition on the heights: the live start is
    the larger of [blockHeight - 100] (as Go computes it) and the sapling
    height. *)
Lemma live_start_go_arithmetic (w : main.World) c k ch live sh bh chain br err :
  Go (BlockIngestor c k ch live) ∈ trace (main.main w) →
  main.common_GetSaplingInfo w c = (sh, bh, chain, br, err) →
  live = Z.max (int_sub bh 100) sh.
Proof.
  intros (sh' & bh' & chain' & br' & err' & Hinfo' & _ & _ & -> & _)%main_live_ingestor Hinfo.
  rewrite Hinfo in Hinfo'. by simplify_eq.
Qed.

(** C5: the historical ingestor is started at the height just below the one
    the live ingestor is started at ([cacheStart-1], which is one less
    unless [cacheStart] is the least [int]), and its floor is the sapling
    activation height that the node reported; every historical ingestor
    [main] starts has that start and that floor. *)
Theorem historical_starts_one_below_live (w : main.World) c k ch live :
  Go (BlockIngestor c k ch live) ∈ trace (main.main w) →
  ∃ sh bh chain br err,
    main.common_GetSaplingInfo w c = (sh, bh, chain, br, err)
    ∧ Go (HistoricalBlockIngestor c k (int_sub live 1) (main.cacheSize (main.args w)) sh)
        ∈ trace (main.main w)
    ∧ (∀ c' k' h' n' f',
         Go (HistoricalBlockIngestor c' k' h' n' f') ∈ trace (main.main w) →
         h' = int_sub live 1 ∧ f' = sh)
    ∧ ((min_int < live ≤ max_int)%Z → int_sub live 1 = (live - 1)%Z).
Proof.
  intros (sh & bh & chain & br & err & Hinfo & -> & -> & -> & Hall)%main_live_ingestor.
  exists sh, bh, chain, br, err. split; [done|]. split; [|split].
  - apply elem_of_goroutines. rewrite Hall. unfold started.
    apply list_elem_of_further. constructor.
  - intros c' k' h' n' f' Hin%elem_of_goroutines.
    rewrite Hall in Hin. unfold started in Hin.
    repeat (apply elem_of_cons in Hin as [Hin|Hin]; [try discriminate|]).
    + by simplify_eq.
    + by apply elem_of_nil in Hin.
  - intros Hlive. apply wrap_int_id. unfold min_int, max_int in *. lia.
Qed.

Lemma historical_starts_one_below_live_witness :
  ∃ sh bh chain br err,
    main.common_GetSaplingInfo w_tls client_creds = (sh, bh, chain, br, err)
    ∧ Go (HistoricalBlockIngestor client_creds (cacheRef 40000) (int_sub 1099900 1)
            (main.cacheSize (main.args w_tls)) sh)
        ∈ trace (main.main w_tls)
    ∧ (∀ c' k' h' n' f',
         Go (HistoricalBlockIngestor c' k' h' n' f') ∈ trace (main.main w_tls) →
         h' = int_sub 1099900 1 ∧ f' = sh)
    ∧ ((min_int < 1099900 ≤ max_int)%Z → int_sub 1099900 1 = (1099900 - 1)%Z).
Proof.
  apply (historical_starts_one_below_live w_tls client_creds (cacheRef 40000) stopChan).
  apply (bool_decide_unpack _). by vm_compute.
Defined.

(** C10: the height the live ingestor is started at is the maximum of the
    best block height less 100 and the sapling activation height, for the
    heights the node reports to the client in use: it is at least each of
    the two and equal to one of them.  The subtraction is Go's, on [int]; it
    is the subtraction of the integers for every best height that is at
    least 100 above the least [int]. *)
Theorem live_start_is_max (w : main.World) c k ch live sh bh chain br err :
  Go (BlockIngestor c k ch live) ∈ trace (main.main w) →
  main.common_GetSaplingInfo w c = (sh, bh, chain, br, err) →
  live = Z.max (int_sub bh 100) sh
  ∧ (sh ≤ live)%Z
  ∧ (int_sub bh 100 ≤ live)%Z
  ∧ (live = sh ∨ live = int_sub bh 100)
  ∧ ((min_int + 100 ≤ bh ≤ max_int)%Z → int_sub bh 100 = (bh - 100)%Z).
Proof.
  intros Hgo Hinfo.
  rewrite (live_start_go_arithmetic w c k ch live sh bh chain br err Hgo Hinfo).
  split_and!; [done|lia|lia|lia|].
  intros Hbh. apply wrap_int_id. unfold min_int, max_int in *. lia.
Qed.

Lemma live_start_is_max_witness :
  1099900 = Z.max (int_sub 1100000 100) 492850
  ∧ (492850 ≤ 1099900)%Z
  ∧ (int_sub 1100000 100 ≤ 1099900)%Z
  ∧ (1099900 = 492850 ∨ 1099900 = int_sub 1100000 100)
  ∧ ((min_int + 100 ≤ 1100000 ≤ max_int)%Z → int_sub 1100000 100 = (1100000 - 100)%Z).
Proof.
  apply (live_start_is_max w_tls client_creds (cacheRef 40000) stopChan
           1099900 492850 1100000 "main" "76b809bb" None).
  - apply (bool_decide_unpack _). by vm_compute.
  - reflexivity.
Defined.

(** The same on numbers: a node far above the activation height, a node
    close to it, and a node that reports -1 for both heights. *)
Example live_start_examples :
  Z.max (int_sub 1100000 100) 492850 = 1099900
  ∧ Z.max (int_sub 492900 100) 492850 = 492850
  ∧ Z.max (int_sub (-1) 100) (-1) = (-1)%Z.
Proof. by vm_compute. Qed.

(** *** TLS material *)

(** What the process prints before it exits for want of TLS material. *)
Definition tls_notice : list Event :=
  [ Println "Please specify a TLS certificate/key to use. You can use a self-signed certificate.";
    Println "See 'https://github.com/adityapk00/lightwalletd/blob/master/README.md#running-your-own-zeclite-lightwalletd'" ].

(** C8, as stated, fails: started with a conf file and nothing else (no
    certificate path, no key path), the process prints a notice and exits
    with status 1, where the same start with a certificate and a key goes
    on to serve. *)
Lemma missing_tls_material_exits :
  main.args w_no_tls_material = options_for "" "" (main.noTLS main.defaultOptions)
  ∧ main.main w_no_tls_material = (tls_notice, inl 1%Z)
  ∧ Serve "127.0.0.1:9067" ∈ trace (main.main w_tls).
Proof.
  split; [reflexivity|]. split; [reflexivity|].
  apply (bool_decide_unpack _). by vm_compute.
Qed.

(** C8, amended: TLS material is optional only together with [-no-tls].
    Without [-no-tls], a start that lacks the certificate path or the key
    path prints a notice and exits with status 1; with [-no-tls] (and a log
    file that opens, if one is asked for) startup goes on and makes the gRPC
    server without transport credentials. *)
Theorem tls_material_optional_only_with_no_tls (w : main.World) :
  main.zcashConfPath (main.args w) ≠ "" →
  (main.noTLS (main.args w) = false →
   main.tlsCertPath (main.args w) = "" ∨ main.tlsKeyPath (main.args w) = "" →
   main.main w = (tls_notice, inl 1%Z))
  ∧ (main.noTLS (main.args w) = true →
     (main.logPath (main.args w) ≠ "" →
      main.os_OpenFile w (main.logPath (main.args w)) = None) →
     NewServer None ∈ trace (main.main w)).
Proof.
  intros Hconf. split.
  - intros Hno Hmissing. unfold main.main.
    rewrite (bool_decide_eq_false_2 _ Hconf), Hno.
    destruct Hmissing as [Hm|Hm]; rewrite Hm;
      rewrite (bool_decide_eq_true_2 ("" = "") eq_refl), ?orb_true_r; reflexivity.
  - intros Hno Hlog. unfold main.main.
    do 4 pass. rewrite Hno. here. constructor.
Qed.

Lemma tls_material_optional_only_with_no_tls_witness :
  main.main w_no_tls_material = (tls_notice, inl 1%Z)
  ∧ NewServer None ∈ trace (main.main w_no_tls_flag).
Proof.
  split.
  - apply (tls_material_optional_only_with_no_tls w_no_tls_material);
      [done | reflexivity | by left].
  - apply (tls_material_optional_only_with_no_tls w_no_tls_flag);
      [done | reflexivity | done].
Defined.

(** ** Metrics *)

(** Calls of a counter's methods do not change what it is, and never lower
    its value. *)
Lemma call_monotone (op : prometheus.CounterOp) (c c' : prometheus.Counter) :
  prometheus.call op c = Some c' →
  prometheus.opts c' = prometheus.opts c
  ∧ (prometheus.value c ≤ prometheus.value c')%Qc.
Proof.
  destruct op as [|v]; cbn.
  - intros [= <-]. split; [done|]. cbn.
    rewrite <- (Qcplus_0_r (prometheus.value c)) at 1.
    by apply Qcplus_le_mono_l.
  - case_bool_decide as Hv; [done|]. intros [= <-]. split; [done|]. cbn.
    rewrite <- (Qcplus_0_r (prometheus.value c)) at 1.
    apply Qcplus_le_mono_l. by apply Qcnot_lt_le.
Qed.

Lemma calls_monotone (ops : list prometheus.CounterOp) (c c' : prometheus.Counter) :
  prometheus.calls ops c = Some c' →
  prometheus.opts c' = prometheus.opts c
  ∧ (prometheus.value c ≤ prometheus.value c')%Qc.
Proof.
  revert c. induction ops as [|op ops IH]; intros c; cbn.
  - by intros [= <-].
  - destruct (prometheus.call op c) as [c1|] eqn:Hcall; [|done].
    intros Hrest. apply call_monotone in Hcall as [Ho1 Hv1].
    apply IH in Hrest as [Ho2 Hv2]. split; [congruence|].
    by etrans.
Qed.

(** The four counters that [GetPrometheusMetrics] makes: latest-block
    queries, blocks served, transactions submitted, total errors. *)
Definition four_counters : list prometheus.Counter :=
  [ common.LatestBlockCounter main.metrics;
    common.TotalBlocksServedConter main.metrics;
    common.SendTransactionsCounter main.metrics;
    common.TotalErrors main.metrics ].

Definition counter_names (r : list prometheus.Counter) : list string :=
  (prometheus.Name ∘ prometheus.opts) <$> r.

(** Two counters for the params downloads, as an example of what the two
    further fields of [metrics] may hold. *)
Definition sapling_params_counter : prometheus.Counter :=
  prometheus.NewCounter {|
    prometheus.Name := "params_sapling_total";
    prometheus.Help := "Total number of params downloads for sapling params" |}.

Definition sprout_params_counter : prometheus.Counter :=
  prometheus.NewCounter {|
    prometheus.Name := "params_sprout_total";
    prometheus.Help := "Total number of params downloads for sprout params" |}.

Lemma MustRegister_fresh (r : prometheus.Registry) (c : prometheus.Counter) :
  prometheus.Name (prometheus.opts c) ∉ counter_names r →
  prometheus.MustRegister r c = Some (r ++ [c])%list.
Proof.
  intros Hfresh. unfold prometheus.MustRegister.
  by rewrite (bool_decide_eq_false_2 _ Hfresh).
Qed.

(** C9, as stated, fails: [init] registers six collectors, the four counters
    of [GetPrometheusMetrics] and two more, so the exported metrics are not
    exactly those four. *)
Lemma exported_metrics_not_only_four :
  main.init (λ _, sapling_params_counter) (λ _, sprout_params_counter)
    prometheus.NewRegistry
  = Some [ common.LatestBlockCounter main.metrics;
           common.TotalErrors main.metrics;
           common.TotalBlocksServedConter main.metrics;
           common.SendTransactionsCounter main.metrics;
           sapling_params_counter;
           sprout_params_counter ]
  ∧ (sapling_params_counter ∉ four_counters)
  ∧ (sprout_params_counter ∉ four_counters).
Proof.
  split; [by vm_compute|].
  split; apply (bool_decide_unpack _); by vm_compute.
Qed.

(** C9, amended: the exported metrics are the six counters that [init]
    registers: latest-block queries, total errors, blocks served and
    transactions submitted, and the two params counters of [metrics]
    (registration succeeds when their names differ from the others and from
    each other); every one of them is a counter, and no run of calls of a
    counter's methods lowers its value. *)
Theorem exported_metrics_are_six_counters
    (TotalSaplingParamsCounter TotalSproutParamsCounter
       : common.PrometheusMetrics → prometheus.Counter) :
  let sapling := TotalSaplingParamsCounter main.metrics in
  let sprout := TotalSproutParamsCounter main.metrics in
  prometheus.Name (prometheus.opts sapling) ∉ counter_names four_counters →
  prometheus.Name (prometheus.opts sprout)
    ∉ counter_names (four_counters ++ [sapling])%list →
  ∃ exported,
    main.init TotalSaplingParamsCounter TotalSproutParamsCounter prometheus.NewRegistry
    = Some exported
    ∧ exported = [ common.LatestBlockCounter main.metrics;
                   common.TotalErrors main.metrics;
                   common.TotalBlocksServedConter main.metrics;
                   common.SendTransactionsCounter main.metrics;
                   sapling; sprout ]
    ∧ ∀ c ops c',
        c ∈ exported →
        prometheus.calls ops c = Some c' →
        (prometheus.value c ≤ prometheus.value c')%Qc.
Proof.
  intros sapling sprout Hsap Hspr. eexists. split; [|split; [reflexivity|]].
  - unfold main.init.
    do 4 (rewrite MustRegister_fresh by (apply (bool_decide_unpack _); by vm_compute);
          cbn [mbind option_bind app prometheus.NewRegistry]).
    rewrite MustRegister_fresh.
    2:{ intros Hin. apply Hsap. revert Hin.
        unfold counter_names, four_counters. cbn.
        rewrite !elem_of_cons, !elem_of_nil. tauto. }
    cbn [mbind option_bind app].
    rewrite MustRegister_fresh; [reflexivity|].
    intros Hin. apply Hspr. revert Hin.
    unfold counter_names, four_counters. cbn.
        rewrite !elem_of_cons, !elem_of_nil. tauto.
  - intros c ops c' _ Hcalls. by apply calls_monotone in Hcalls as [_ ?].
Qed.

Lemma exported_metrics_are_six_counters_witness :
  ∃ exported,
    main.init (λ _, sapling_params_counter) (λ _, sprout_params_counter)
      prometheus.NewRegistry
    = Some exported
    ∧ exported = [ common.LatestBlockCounter main.metrics;
                   common.TotalErrors main.metrics;
                   common.TotalBlocksServedConter main.metrics;
                   common.SendTransactionsCounter main.metrics;
                   sapling_params_counter; sprout_params_counter ]
    ∧ ∀ c ops c',
        c ∈ exported →
        prometheus.calls ops c = Some c' →
        (prometheus.value c ≤ prometheus.value c')%Qc.
Proof.
  apply (exported_metrics_are_six_counters
           (λ _, sapling_params_counter) (λ _, sprout_params_counter));
    apply (bool_decide_unpack _); by vm_compute.
Defined.

(** ** The block cache *)

Section BlockCache.

Import blockcache.

Implicit Types (bs : gmap Z CompactBlock) (c : BlockCache) (b : CompactBlock).

(** The resident heights of [bs] are those from [lo] to [hi]. *)
Definition spans (bs : gmap Z CompactBlock) (lo hi : Z) : Prop :=
  ∀ h, is_Some (bs !! h) ↔ (lo ≤ h ≤ hi)%Z.

Lemma spans_empty bs lo hi : spans bs lo hi → (hi < lo)%Z → bs = ∅.
Proof.
  intros Hspan Hlt. apply map_empty. intros h.
  apply eq_None_not_Some. intros Hres%Hspan. lia.
Qed.

Lemma linked_subseteq bs bs' : bs' ⊆ bs → linked bs → linked bs'.
Proof.
  intros Hsub Hlinked h b1 b2 H1 H2.
  apply (Hlinked h); by eapply lookup_weaken.
Qed.

Lemma linked_empty : linked ∅.
Proof. intros h b1 b2 H1. by rewrite lookup_empty in H1. Qed.

(** Appending a block that names the tip as its parent keeps the chain. *)
Lemma linked_append bs lo hi tip b :
  spans bs lo hi → linked bs →
  bs !! hi = Some tip → prevHash b = hash tip →
  linked (<[(hi + 1)%Z := b]> bs).
Proof.
  intros Hspan Hlinked Htip Hprev h b1 b2.
  rewrite !lookup_insert_Some.
  intros [[Hh <-]|[Hh H1]] [[Hh' <-]|[Hh' H2]]; try lia.
  - assert (is_Some (bs !! (h + 1)%Z)) as Hres by eauto.
    apply Hspan in Hres. lia.
  - assert (h = hi) as -> by lia. congruence.
  - by apply (Hlinked h).
Qed.

(** Prepending a block that the first block names as its parent keeps the
    chain. *)
Lemma linked_prepend bs lo hi first b :
  spans bs lo hi → linked bs →
  bs !! lo = Some first → prevHash first = hash b →
  linked (<[(lo - 1)%Z := b]> bs).
Proof.
  intros Hspan Hlinked Hfirst Hprev h b1 b2.
  rewrite !lookup_insert_Some.
  intros [[Hh <-]|[Hh H1]] [[Hh' <-]|[Hh' H2]]; try lia.
  - assert (h + 1 = lo)%Z as Heq by lia. rewrite Heq in H2. congruence.
  - assert (is_Some (bs !! h)) as Hres by eauto.
    apply Hspan in Hres. lia.
  - by apply (Hlinked h).
Qed.

Lemma spans_insert_above bs lo hi b :
  (lo ≤ hi)%Z → spans bs lo hi → spans (<[(hi + 1)%Z := b]> bs) lo (hi + 1).
Proof.
  intros Hle Hspan h. rewrite lookup_insert_is_Some, (Hspan h). lia.
Qed.

Lemma spans_insert_below bs lo hi b :
  (lo ≤ hi)%Z → spans bs lo hi → spans (<[(lo - 1)%Z := b]> bs) (lo - 1) hi.
Proof.
  intros Hle Hspan h. rewrite lookup_insert_is_Some, (Hspan h). lia.
Qed.

(** The eviction loop removes a lower part of the window and nothing else,
    and it has rounds enough to reach its exit condition. *)
Lemma evict_loop_spec (fuel : nat) bs (lo hi cap : Z) :
  spans bs lo hi →
  ∃ bs' lo',
    evict_loop fuel bs lo hi cap = (bs', lo')
    ∧ (lo ≤ lo')%Z ∧ spans bs' lo' hi ∧ bs' ⊆ bs
    ∧ ((hi - lo + 1 - cap ≤ Z.of_nat fuel)%Z → (hi - lo' + 1 ≤ cap)%Z).
Proof.
  revert bs lo. induction fuel as [|fuel IH]; intros bs lo Hspan; cbn [evict_loop].
  - exists bs, lo. split_and!; [done|lia|done|done|lia].
  - case_bool_decide as Hover.
    + destruct (IH (delete lo bs) (lo + 1)%Z) as (bs' & lo' & Hloop & Hlo & Hspan' & Hsub & Hexit).
      { intros h. rewrite lookup_delete_is_Some, (Hspan h). lia. }
      exists bs', lo'. split_and!; [done|lia|done| |lia].
      etrans; [exact Hsub|]. apply delete_subseteq.
    + exists bs, lo. split_and!; [done|lia|done|done|lia].
Qed.

(** The invariant of the cache: the resident heights are those of the
    window, and the resident blocks form a hash chain. *)
Definition cache_ok c : Prop := windowed c ∧ linked (blocks c).

Lemma cache_ok_new cap : cache_ok (NewBlockCache cap).
Proof. split; [reflexivity|apply linked_empty]. Qed.

Lemma cache_ok_evict c : cache_ok c → cache_ok (EvictOldestIfOverCapacity c).
Proof.
  intros [Hwin Hlinked]. unfold EvictOldestIfOverCapacity. unfold windowed in Hwin.
  destruct (window c) as [[lo hi]|] eqn:Hw;
    [|split; [unfold windowed; by rewrite Hw|done]].
  destruct Hwin as [Hle Hspan].
  destruct (evict_loop_spec (Z.to_nat (hi - lo + 1 - capacity c)) (blocks c) lo hi
              (capacity c) Hspan) as (bs' & lo' & -> & Hlo & Hspan' & Hsub & _).
  split; [|by eapply linked_subseteq].
  unfold windowed. cbn. case_bool_decide as Hlo'; cbn.
  - by split.
  - eapply spans_empty; [done|lia].
Qed.

(** The rounds given to the eviction loop are enough: what is left of the
    window is within the capacity. *)
Lemma evict_within_capacity c lo hi :
  cache_ok c →
  window (EvictOldestIfOverCapacity c) = Some (lo, hi) →
  (hi - lo + 1 ≤ capacity c)%Z.
Proof.
  intros [Hwin _]. unfold EvictOldestIfOverCapacity. unfold windowed in Hwin.
  destruct (window c) as [[lo0 hi0]|] eqn:Hw; [|by rewrite Hw].
  destruct Hwin as [Hle Hspan].
  destruct (evict_loop_spec (Z.to_nat (hi0 - lo0 + 1 - capacity c)) (blocks c) lo0 hi0
              (capacity c) Hspan) as (bs' & lo' & -> & Hlo & _ & _ & Hexit).
  cbn. case_bool_decide; [|done]. intros [= <- <-]. apply Hexit. lia.
Qed.

Lemma cache_ok_truncate c fromHeight : cache_ok c → cache_ok (Truncate fromHeight c).
Proof.
  intros [Hwin Hlinked]. unfold Truncate. unfold windowed in Hwin.
  destruct (window c) as [[lo hi]|] eqn:Hw;
    [|split; [unfold windowed; by rewrite Hw|done]].
  destruct Hwin as [Hle Hspan].
  assert (spans (filter (λ kv, (kv.1 < fromHeight)%Z) (blocks c)) lo
            (Z.min hi (fromHeight - 1))) as Hspan'.
  { intros h. unfold is_Some. setoid_rewrite map_lookup_filter_Some. cbn.
    split.
    - intros (b & Hb & Hlt). assert (is_Some (blocks c !! h)) as Hres by eauto.
      apply Hspan in Hres. lia.
    - intros Hh. destruct (proj2 (Hspan h)) as [b Hb]; [lia|].
      exists b. split; [done|lia]. }
  split; [|eapply linked_subseteq; [apply map_filter_subseteq|done]].
  unfold windowed. cbn. case_bool_decide as Hfrom; cbn.
  - eapply spans_empty; [done|lia].
  - split; [lia|done].
Qed.

Lemma cache_ok_add c b c' : cache_ok c → Add b c = inr c' → cache_ok c'.
Proof.
  intros [Hwin Hlinked]. unfold Add. unfold windowed in Hwin.
  destruct (window c) as [[lo hi]|].
  - destruct Hwin as [Hle Hspan].
    case_bool_decide as Happend.
    + destruct (blocks c !! hi) as [tip|] eqn:Htip; [|done].
      case_bool_decide as Hprev; [|done]. intros [= <-].
      apply cache_ok_evict. rewrite Happend. split.
      * unfold windowed. cbn. split; [lia|]. by apply spans_insert_above.
      * cbn. by eapply linked_append.
    + case_bool_decide as Hprepend; [|done].
      destruct (blocks c !! lo) as [first|] eqn:Hfirst; [|done].
      case_bool_decide as Hprev; [|done]. intros [= <-].
      rewrite Hprepend. split.
      * unfold windowed. cbn. split; [lia|]. by apply spans_insert_below.
      * cbn. by eapply linked_prepend.
  - intros [= <-]. apply cache_ok_evict. rewrite Hwin. split.
    + unfold windowed. cbn. split; [lia|]. intros h.
      rewrite lookup_insert_is_Some, lookup_empty. unfold is_Some.
      split; [intros [->|[_ [? ?]]]; [lia|done]|]. intros Hh. left. lia.
    + cbn. intros h b1 b2. rewrite !lookup_insert_Some, !lookup_empty.
      intros [[? ?]|[_ ?]] [[? ?]|[_ ?]]; try done; lia.
Qed.

Lemma cache_ok_step c op : cache_ok c → cache_ok (step c op).
Proof.
  intros Hok. destruct op as [b|h|]; cbn.
  - destruct (Add b c) as [err|c'] eqn:Hadd; [done|]. by eapply cache_ok_add.
  - by apply cache_ok_truncate.
  - by apply cache_ok_evict.
Qed.

Lemma cache_ok_reachable cap c : reachable cap c → cache_ok c.
Proof.
  induction 1 as [|c op _ IH]; [apply cache_ok_new|by apply cache_ok_step].
Qed.

Lemma reachable_run cap (ops : list Op) c :
  reachable cap c → reachable cap (run ops c).
Proof.
  revert c. induction ops as [|op ops IH]; intros c Hc; cbn; [done|].
  apply IH. by constructor.
Qed.

(** A block that [GetBlock] finds is a resident block. *)
Lemma GetBlock_resident c h b : GetBlock c h = Some b → blocks c !! h = Some b.
Proof.
  unfold GetBlock. destruct (window c) as [[lo hi]|]; [|done].
  by case_bool_decide.
Qed.

End BlockCache.

(** Blocks 100 to 102 of one chain, and a block 102 of another chain. *)
Definition block100 : blockcache.CompactBlock :=
  blockcache.mkCompactBlock 100 [x0a; x00] [x09; x00] 1571000100 [].

Definition block101 : blockcache.CompactBlock :=
  blockcache.mkCompactBlock 101 [x0b; x00] [x0a; x00] 1571000250 [].

Definition block102 : blockcache.CompactBlock :=
  blockcache.mkCompactBlock 102 [x0c; x00] [x0b; x00] 1571000400
    [blockcache.mkCompactTx [x77]].

Definition stale102 : blockcache.CompactBlock :=
  blockcache.mkCompactBlock 102 [xff; x00] [xee; x00] 1571000333 [].

(** A history of a cache of capacity 2: three blocks arrive on the live
    side, with a block of another chain offered in between; then block 102
    is cut off and added again. *)
Definition example_ops : list blockcache.Op :=
  [ blockcache.OpAdd block100; blockcache.OpAdd block101;
    blockcache.OpAdd stale102; blockcache.OpAdd block102;
    blockcache.OpTruncate 102; blockcache.OpAdd block102;
    blockcache.OpEvict ].

(** Add rejects a block that does not name the tip as its parent, and a
    block that would leave a gap. *)
Example Add_rejects_hash_mismatch :
  blockcache.Add stale102
    (blockcache.run [blockcache.OpAdd block100; blockcache.OpAdd block101]
       (blockcache.NewBlockCache 2))
  = inl blockcache.HashMismatch.
Proof. by vm_compute. Qed.

Example Add_rejects_height_gap :
  blockcache.Add block102
    (blockcache.run [blockcache.OpAdd block100] (blockcache.NewBlockCache 2))
  = inl blockcache.HeightGap.
Proof. by vm_compute. Qed.

Example example_ops_window :
  blockcache.window (blockcache.run example_ops (blockcache.NewBlockCache 2))
  = Some (101, 102)%Z
  ∧ blockcache.GetBlock (blockcache.run example_ops (blockcache.NewBlockCache 2)) 100
    = None.
Proof. by vm_compute. Qed.

(** What [GetBlock] returns at adjacent heights is linked as well. *)
Lemma GetBlock_adjacent_linked (cap : Z) (ops : list blockcache.Op) (h : Z)
    (b1 b2 : blockcache.CompactBlock) :
  blockcache.GetBlock (blockcache.run ops (blockcache.NewBlockCache cap)) h = Some b1 →
  blockcache.GetBlock (blockcache.run ops (blockcache.NewBlockCache cap)) (h + 1) = Some b2 →
  blockcache.prevHash b2 = blockcache.hash b1.
Proof.
  intros H1%GetBlock_resident H2%GetBlock_resident.
  destruct (cache_ok_reachable cap _
              (reachable_run cap ops _ (blockcache.reachable_new cap))) as [_ Hlinked].
  by apply (Hlinked h).
Qed.

(** C1: in the cache after any sequence of Add, Truncate and eviction
    operations on a new cache, any two blocks resident at adjacent heights
    [h] and [h+1] are linked: the upper block's [prevHash] is the lower
    block's [hash]. *)
Theorem cache_adjacent_blocks_linked (cap : Z) (ops : list blockcache.Op) (h : Z)
    (b1 b2 : blockcache.CompactBlock) :
  blockcache.blocks (blockcache.run ops (blockcache.NewBlockCache cap)) !! h = Some b1 →
  blockcache.blocks (blockcache.run ops (blockcache.NewBlockCache cap)) !! (h + 1)%Z = Some b2 →
  blockcache.prevHash b2 = blockcache.hash b1.
Proof.
  intros H1 H2.
  assert (blockcache.reachable cap (blockcache.run ops (blockcache.NewBlockCache cap)))
    as Hreach by (apply reachable_run; constructor).
  apply cache_ok_reachable in Hreach as [_ Hlinked].
  by apply (Hlinked h).
Qed.

Lemma cache_adjacent_blocks_linked_witness :
  blockcache.blocks (blockcache.run example_ops (blockcache.NewBlockCache 2)) !! 101%Z
  = Some block101
  ∧ blockcache.blocks (blockcache.run example_ops (blockcache.NewBlockCache 2)) !! 102%Z
    = Some block102
  ∧ blockcache.prevHash block102 = blockcache.hash block101.
Proof.
  split; [by vm_compute|]. split; [by vm_compute|].
  apply (cache_adjacent_blocks_linked 2 example_ops 101 block101 block102);
    by vm_compute.
Defined.


(** * Further properties of the sources *)

(** ** Request logging (LoggingInterceptor, logInterceptor, loggerFromContext) *)

(** google.golang.org/grpc: incoming metadata, peer information and the
    description of a unary call, as far as the interceptor reads them. *)
Module grpc.

(** [metadata.MD]: a map from keys to lists of values. *)
Definition MD : Type := gmap string (list string).

(** [strings.ToLower] on the letters A to Z; other characters stay as they
    are. *)
Definition lower (c : ascii) : ascii :=
  let n := nat_of_ascii c in
  if (65 <=? n)%nat && (n <=? 90)%nat then ascii_of_nat (n + 32) else c.

Fixpoint ToLower (s : string) : string :=
  match s with
  | EmptyString => EmptyString
  | String c rest => String (lower c) (ToLower rest)
  end.

(** [md.Get(k)]: the values under the lower-cased key; none when the key is
    not there. *)
Definition Get (md : MD) (k : string) : list string :=
  default [] (md !! ToLower k).

(** [peer.Peer], of which the interceptor reads [Addr] (a [net.Addr], here
    as it prints; [None] is the nil interface). *)
Record Peer : Type := mkPeer { Addr : option string }.

(** A context, as [metadata.FromIncomingContext] and [peer.FromContext] see
    it: each gives its value when the context carries one. *)
Record Context : Type := mkContext {
  incoming : option MD;
  peer : option Peer
}.

Record UnaryServerInfo : Type := mkUnaryServerInfo { FullMethod : string }.

End grpc.

(** The logging of cmd/server/main.go: the entry [log], [loggerFromContext]
    and [logInterceptor].  ([LoggingInterceptor] only wraps [logInterceptor]
    as a server option.) *)
Module rpclog.

(** The values the fields of a log entry hold here. *)
Inductive Value : Type :=
  | VString (s : string)
  | VAddr (a : option string)
  | VDuration (d : Z)
  | VError (e : error).

(** [logrus.Entry], of which only the fields ([Data]) matter here. *)
Record Entry : Type := mkEntry { Data : gmap string Value }.

(** [entry.WithFields(fields)]: a new entry with the fields of [entry] and
    the new ones, the new ones winning. *)
Definition WithFields (e : Entry) (fields : gmap string Value) : Entry :=
  {| Data := fields ∪ Data e |}.

(** [log = logger.WithFields(logrus.Fields{"app": "frontend-grpc"})], as
    [init] sets it. *)
Definition log : Entry :=
  WithFields (mkEntry ∅) {[ "app" := VString "frontend-grpc" ]}.

Definition loggerFromContext (ctx : grpc.Context) : Entry :=
  let fromPeer :=
    match grpc.peer ctx with
    | Some peerInfo => WithFields log {[ "peer_addr" := VAddr (grpc.Addr peerInfo) ]}
    | None => WithFields log {[ "peer_addr" := VString "unknown" ]}
    end in
  match grpc.incoming ctx with
  | Some xRealIP =>
      match grpc.Get xRealIP "x-real-ip" with
      | ip :: _ => WithFields log {[ "peer_addr" := VString ip ]}
      | [] => fromPeer
      end
  | None => fromPeer
  end.

(** One call of [entry.Error(msg)] or [entry.Info(msg)]. *)
Record Logged : Type := mkLogged {
  level : logrus.Level;
  entry : Entry;
  message : string
}.

(** [logInterceptor]: [elapsed] is what [time.Since(start)] gives after the
    handler has returned.  The result is what was logged and what is
    returned. *)
Definition logInterceptor {Req Resp : Type} (ctx : grpc.Context) (req : Req)
    (info : grpc.UnaryServerInfo) (handler : grpc.Context → Req → Resp * error)
    (elapsed : Z) : Logged * (Resp * error) :=
  let reqLog := loggerFromContext ctx in
  let '(resp, err) := handler ctx req in
  let entry := WithFields reqLog
                 {[ "method" := VString (grpc.FullMethod info);
                    "duration" := VDuration elapsed;
                    "error" := VError err ]} in
  let logged :=
    match err with
    | Some _ => mkLogged logrus.ErrorLevel entry "call failed"
    | None => mkLogged logrus.InfoLevel entry "method called"
    end in
  (logged, (resp, err)).

End rpclog.

(** The entry of [loggerFromContext] has the field of [log] and a peer
    address, in every case. *)
Lemma loggerFromContext_cases (ctx : grpc.Context) :
  ∃ v, rpclog.Data (rpclog.loggerFromContext ctx)
       = {[ "app" := rpclog.VString "frontend-grpc"; "peer_addr" := v ]}.
Proof.
  unfold rpclog.loggerFromContext.
  destruct (grpc.incoming ctx) as [md|]; [destruct (grpc.Get md _) as [|ip rest]|];
    try destruct (grpc.peer ctx) as [p|]; eexists; reflexivity.
Qed.

(** A request that came through a proxy at 10.1.1.1, with the client's
    address in the x-real-ip header. *)
Definition ctx_proxied : grpc.Context :=
  grpc.mkContext (Some {[ "x-real-ip" := ["203.0.113.9"]; "user-agent" := ["grpc-go"] ]})
    (Some (grpc.mkPeer (Some "10.1.1.1:41000"))).

(** X12: when the incoming metadata has a value under x-real-ip, the
    request's log entry takes the first such value as its peer address,
    whatever the transport says the peer is; its fields are app and
    peer_addr. *)
Theorem real_ip_overrides_peer (ctx : grpc.Context) (md : grpc.MD) (ip : string)
    (rest : list string) :
  grpc.incoming ctx = Some md →
  md !! "x-real-ip" = Some (ip :: rest) →
  rpclog.Data (rpclog.loggerFromContext ctx)
  = {[ "app" := rpclog.VString "frontend-grpc"; "peer_addr" := rpclog.VString ip ]}.
Proof.
  intros Hmd Hip. unfold rpclog.loggerFromContext, grpc.Get.
  rewrite Hmd. change (grpc.ToLower "x-real-ip") with "x-real-ip".
  rewrite Hip. reflexivity.
Qed.

Lemma real_ip_overrides_peer_witness :
  rpclog.Data (rpclog.loggerFromContext ctx_proxied)
  = {[ "app" := rpclog.VString "frontend-grpc";
       "peer_addr" := rpclog.VString "203.0.113.9" ]}.
Proof.
  apply (real_ip_overrides_peer ctx_proxied
           {[ "x-real-ip" := ["203.0.113.9"]; "user-agent" := ["grpc-go"] ]}
           "203.0.113.9" []); reflexivity.
Defined.

(** Without a value under x-real-ip the peer's address is logged, and
    "unknown" when there is no peer either. *)
Example loggerFromContext_examples :
  rpclog.Data (rpclog.loggerFromContext
                 (grpc.mkContext (Some {[ "x-real-ip" := [] ]})
                    (Some (grpc.mkPeer (Some "10.1.1.1:41000"))))) !! "peer_addr"
  = Some (rpclog.VAddr (Some "10.1.1.1:41000"))
  ∧ rpclog.Data (rpclog.loggerFromContext (grpc.mkContext None None)) !! "peer_addr"
    = Some (rpclog.VString "unknown").
Proof. by vm_compute. Qed.

(** X13: [logInterceptor] returns exactly what the handler returns, and logs
    one entry with the five fields app, peer_addr, method, duration and
    error: the peer address is that of [loggerFromContext], the error is
    the handler's, and the entry is at error level with "call failed" when
    the handler gave an error, at info level with "method called"
    otherwise. *)
Theorem logInterceptor_transparent {Req Resp : Type} (ctx : grpc.Context) (req : Req)
    (info : grpc.UnaryServerInfo) (handler : grpc.Context → Req → Resp * error)
    (elapsed : Z) :
  let logged := (rpclog.logInterceptor ctx req info handler elapsed).1 in
  let data := rpclog.Data (rpclog.entry logged) in
  (rpclog.logInterceptor ctx req info handler elapsed).2 = handler ctx req
  ∧ dom data = {[ "app"; "peer_addr"; "method"; "duration"; "error" ]}
  ∧ data !! "app" = Some (rpclog.VString "frontend-grpc")
  ∧ data !! "peer_addr" = rpclog.Data (rpclog.loggerFromContext ctx) !! "peer_addr"
  ∧ data !! "method" = Some (rpclog.VString (grpc.FullMethod info))
  ∧ data !! "duration" = Some (rpclog.VDuration elapsed)
  ∧ data !! "error" = Some (rpclog.VError (handler ctx req).2)
  ∧ (rpclog.level logged, rpclog.message logged)
    = match (handler ctx req).2 with
      | Some _ => (logrus.ErrorLevel, "call failed")
      | None => (logrus.InfoLevel, "method called")
      end.
Proof.
  unfold rpclog.logInterceptor.
  destruct (handler ctx req) as [resp err].
  destruct (loggerFromContext_cases ctx) as [v Hdata].
  destruct err as [e|]; cbn; rewrite Hdata; split_and!; reflexivity.
Qed.

(** ** More on the RPC client and the metrics *)

(** The outcomes of [NewZRPCFromConf], case by case. *)
Lemma NewZRPCFromConf_cases (Load : string → Error + ini.File) (New : rpcclient.NewT)
    (confPath : string) :
  frontend.NewZRPCFromConf Load New confPath
  = match Load confPath with
    | inl e => (None, Some (ErrWithMessage e "failed to read config file"))
    | inr cfg =>
        if decide (credentials_set cfg)
        then frontend.NewZRPCFromCreds New
               (net.JoinHostPort
                  (or_default (ini.Key (ini.Section cfg "") "rpcbind") "127.0.0.1")
                  (or_default (ini.Key (ini.Section cfg "") "rpcport") "23811"))
               (ini.Key (ini.Section cfg "") "rpcuser")
               (ini.Key (ini.Section cfg "") "rpcpassword")
        else (None, None)
    end.
Proof.
  unfold frontend.NewZRPCFromConf. destruct (Load confPath) as [e|cfg]; [done|].
  unfold credentials_set.
  destruct (decide (ini.Key (ini.Section cfg "") "rpcuser" = "")) as [Hu|Hu].
  - rewrite (bool_decide_eq_true_2 _ Hu). cbn. rewrite decide_False; [done|tauto].
  - destruct (decide (ini.Key (ini.Section cfg "") "rpcpassword" = "")) as [Hp|Hp].
    + rewrite (bool_decide_eq_true_2 _ Hp), orb_true_r. cbn.
      rewrite decide_False; [done|tauto].
    + rewrite (bool_decide_eq_false_2 _ Hu), (bool_decide_eq_false_2 _ Hp). cbn.
      destruct (decide (_ ∧ _)) as [_|Hn]; [done|tauto].
Qed.

(** X11: [NewZRPCFromConf] ends in one of three ways.  The file cannot be
    loaded: no client, and an error that wraps the cause with "failed to
    read config file".  The file loads without both credentials: no client
    and no error.  Otherwise it returns what [rpcclient.New] returns for a
    configuration that has the file's username and password, both
    non-empty, an address joined from a non-empty host and a non-empty
    port, HTTP POST mode and no TLS; it never asks for a client with an
    empty username or password. *)
Theorem NewZRPCFromConf_outcomes (Load : string → Error + ini.File) (New : rpcclient.NewT)
    (confPath : string) :
  (∃ e, Load confPath = inl e
        ∧ frontend.NewZRPCFromConf Load New confPath
          = (None, Some (ErrWithMessage e "failed to read config file")))
  ∨ (∃ cfg, Load confPath = inr cfg ∧ ¬ credentials_set cfg
            ∧ frontend.NewZRPCFromConf Load New confPath = (None, None))
  ∨ (∃ cfg connCfg host port,
       Load confPath = inr cfg
       ∧ frontend.NewZRPCFromConf Load New confPath = New connCfg None
       ∧ rpcclient.User connCfg = ini.Key (ini.Section cfg "") "rpcuser"
       ∧ rpcclient.Pass connCfg = ini.Key (ini.Section cfg "") "rpcpassword"
       ∧ rpcclient.User connCfg ≠ "" ∧ rpcclient.Pass connCfg ≠ ""
       ∧ rpcclient.Host connCfg = net.JoinHostPort host port
       ∧ host ≠ "" ∧ port ≠ ""
       ∧ rpcclient.HTTPPostMode connCfg = true
       ∧ rpcclient.DisableTLS connCfg = true).
Proof.
  rewrite NewZRPCFromConf_cases.
  destruct (Load confPath) as [e|cfg]; [left; eauto|]. right.
  case_decide as Hcreds; [right|left; eauto].
  destruct Hcreds as [Hu Hp].
  eexists cfg, (rpcclient.mkConnConfig _ _ _ _ _), _, _. cbn.
  split_and!; try done; unfold or_default; by case_decide.
Qed.



(** A params counter that takes the name of one of the four makes [init]
    panic. *)
Example init_panics_on_clash :
  main.init (λ _, prometheus.NewCounter
                    (prometheus.mkCounterOpts "lightwalletd_total_errors" "params"))
    (λ _, sprout_params_counter) prometheus.NewRegistry
  = None.
Proof. by vm_compute. Qed.

(** ** More on startup ([main]) *)

Section Startup.

Import main.

(** *** Runs, continued *)

Lemma outcome_bind_inr {A B : Type} (m : Proc A) (f : A → Proc B) (b : B) :
  outcome (m ≫= f) = inr b → ∃ a, outcome m = inr a ∧ outcome (f a) = inr b.
Proof. rewrite outcome_bind. destruct (outcome m) as [code|a]; [done|]. eauto. Qed.

Lemma outcome_bind_r {A B : Type} (m : Proc A) (f : A → Proc B) (a : A) :
  outcome m = inr a → outcome (m ≫= f) = outcome (f a).
Proof. intros Hm. by rewrite outcome_bind, Hm. Qed.

Lemma elem_trace_bind_inv {A B : Type} (m : Proc A) (f : A → Proc B) (e : Event) :
  e ∈ trace (m ≫= f) → e ∈ trace m ∨ ∃ a, outcome m = inr a ∧ e ∈ trace (f a).
Proof.
  rewrite trace_bind. intros [He|He]%elem_of_app; [by left|].
  destruct (outcome m) as [code|a]; [by apply elem_of_nil in He|]. right. eauto.
Qed.

(** Every effect of a run has a property. *)
Definition all_events {A : Type} (P : Event → Prop) (p : Proc A) : Prop :=
  ∀ e, e ∈ trace p → P e.

Lemma all_events_bind {A B : Type} (P : Event → Prop) (m : Proc A) (f : A → Proc B) :
  all_events P m →
  (∀ a, outcome m = inr a → all_events P (f a)) →
  all_events P (m ≫= f).
Proof.
  intros Hm Hf e [He|(a & Hout & He)]%elem_trace_bind_inv; [by apply Hm|].
  by apply (Hf a).
Qed.

Lemma all_events_intro {A : Type} (P : Event → Prop) (p : Proc A) :
  (∀ e, P e) → all_events P p.
Proof. intros HP e _. apply HP. Qed.

(** [branches] opens every case of a part of [main]; [walk_main rule leaf]
    goes through [main] part by part with a rule for [≫=] that asks the same
    of both parts. *)
Ltac branches :=
  unfold_actions; repeat (case_bool_decide || case_match);
  cbn -[pretty String.append].

Ltac walk_main rule leaf :=
  unfold main;
  do 6 (apply rule; [ leaf | intros _ ]);
  apply rule; [ unfold frontend.NewZRPCFromCreds; leaf | ];
  (let c := fresh "rpcClient" in
   intros c; destruct (common_GetSaplingInfo _ c) as [[[[? ?] ?] ?] ?]);
  do 13 (apply rule; [ leaf | intros _ ]);
  leaf.

(** [events_leaf tac]: a part of [main] with its effects at hand; [tac]
    shows the property of each effect. *)
Ltac members_subst H :=
  cbn -[pretty String.append] in H;
  repeat (apply elem_of_cons in H as [->|H]);
  try (by apply elem_of_nil in H).

Ltac events_leaf tac :=
  branches; (let e := fresh "e" in let He := fresh "He" in
             intros e He; members_subst He; tac).

Ltac events_step tac :=
  apply all_events_bind; [ events_leaf tac | intros _ _ ].

Ltac events_from_rpc tac :=
  apply all_events_bind; [ unfold frontend.NewZRPCFromCreds; events_leaf tac | ];
  (let c := fresh "rpcClient" in
   intros c _; destruct (common_GetSaplingInfo _ c) as [[[[? ?] ?] ?] ?]);
  do 13 (events_step tac);
  events_leaf tac.

(** Facts read off a part of [main] that has returned. *)
Ltac fact_from H :=
  revert H; unfold_actions;
  repeat match goal with
         | |- context [noTLS ?o] => destruct (noTLS o) eqn:?
         end;
  repeat case_bool_decide;
  cbn; repeat case_match;
  cbn; intros H; try discriminate H; try solve [ intuition congruence ].

(** The client that the part of [main] that makes it returns. *)
Ltac client_from H :=
  revert H; unfold resolved_client, fallback_client, frontend.NewZRPCFromCreds;
  unfold_actions; repeat case_match; cbn; intros H; by simplify_eq.

(** The part of [main] that makes the client returns [resolved_client]. *)
Ltac client_outcome :=
  unfold resolved_client, fallback_client;
  destruct (frontend.NewZRPCFromConf _ _ _) as [? [?|]]; [|reflexivity];
  rewrite outcome_bind; cbn;
  by destruct (frontend.NewZRPCFromCreds _ _ _ _) as [? [?|]].

Ltac client_pass w :=
  eapply (elem_trace_bind_r _ _ (resolved_client w)); [ client_outcome | cbv beta ].

Ltac return_step := rewrite (outcome_bind_r _ _ tt) by outcome_ok.

(** Worlds for the examples: the listener's port is taken; the node does
    not answer; the config file has no credentials. *)
Definition with_Listen (w : World) (r : error) : World := {|
  args := args w;
  os_OpenFile := os_OpenFile w;
  credentials_NewServerTLSFromFile := credentials_NewServerTLSFromFile w;
  ini_Load := ini_Load w;
  rpcclient_New := rpcclient_New w;
  common_GetSaplingInfo := common_GetSaplingInfo w;
  frontend_NewSQLiteStreamer := frontend_NewSQLiteStreamer w;
  net_Listen := λ _, r;
  server_Serve := server_Serve w
|}.

Definition with_SaplingInfo (w : World) (info : Z * Z * string * string * error)
  : World := {|
  args := args w;
  os_OpenFile := os_OpenFile w;
  credentials_NewServerTLSFromFile := credentials_NewServerTLSFromFile w;
  ini_Load := ini_Load w;
  rpcclient_New := rpcclient_New w;
  common_GetSaplingInfo := λ _, info;
  frontend_NewSQLiteStreamer := frontend_NewSQLiteStreamer w;
  net_Listen := net_Listen w;
  server_Serve := server_Serve w
|}.

Definition w_port_taken : World :=
  with_Listen w_tls
    (Some (ErrNew "listen tcp 127.0.0.1:9067: bind: address already in use")).

Definition w_node_down : World :=
  with_SaplingInfo w_tls
    (-1, -1, "", "", Some (ErrNew "error requesting block: connection refused"))%Z.

Definition w_no_credentials : World :=
  world_for (options_for "cert.pem" "key.pem" false) (λ _, inr conf_empty).

Lemma flags_ok_tls_options : flags_ok (options_for "cert.pem" "key.pem" false).
Proof. split; [done|]. right. by split. Qed.

(** *** How a run ends *)






(** A fatal log entry ends the run. *)
Definition fatal_is_final {A : Type} (p : Proc A) : Prop :=
  ∀ fields msg,
    Log logrus.FatalLevel fields msg ∈ trace p →
    outcome p = inl 1%Z ∧ last (trace p) = Some (Log logrus.FatalLevel fields msg).

Lemma fatal_is_final_bind {A B : Type} (m : Proc A) (f : A → Proc B) :
  fatal_is_final m → (∀ a, fatal_is_final (f a)) → fatal_is_final (m ≫= f).
Proof.
  intros Hm Hf fields msg Hin.
  apply elem_trace_bind_inv in Hin as [Hin|(a & Hout & Hin)].
  - destruct (Hm _ _ Hin) as [Hout Hlast].
    by rewrite outcome_bind, trace_bind, Hout, app_nil_r.
  - destruct (Hf a _ _ Hin) as [Hout' Hlast].
    rewrite outcome_bind, trace_bind, Hout, last_app, Hlast. done.
Qed.

Ltac members H :=
  cbn in H;
  repeat (apply elem_of_cons in H as [H|H]; [try discriminate H|]);
  try (by apply elem_of_nil in H).

Ltac fatal_leaf :=
  branches; intros fields msg Hin; members Hin; simplify_eq; by split.

(** X2: a fatal log entry is the last thing [main] does: the run ends there
    with exit status 1, and nothing is logged, started or served after
    it. *)
Theorem main_fatal_is_final (w : World) fields msg :
  Log logrus.FatalLevel fields msg ∈ trace (main w) →
  outcome (main w) = inl 1%Z
  ∧ last (trace (main w)) = Some (Log logrus.FatalLevel fields msg).
Proof.
  revert fields msg. change (fatal_is_final (main w)).
  walk_main @fatal_is_final_bind fatal_leaf.
Qed.

Lemma main_fatal_is_final_witness :
  outcome (main w_port_taken) = inl 1%Z
  ∧ last (trace (main w_port_taken))
    = Some (Log logrus.FatalLevel
              [("bind_addr", FString "127.0.0.1:9067");
               ("error", FError (Some (ErrNew
                  "listen tcp 127.0.0.1:9067: bind: address already in use")))]
              "couldn't create listener").
Proof.
  apply (main_fatal_is_final w_port_taken).
  apply (bool_decide_unpack _). by vm_compute.
Defined.

(** The deferred calls of [main]. *)
Definition deferred (e : Event) : Prop :=
  e = ServiceGracefulStop ∨ ∃ path, e = CloseFile path.

Definition exit_skips_deferred {A : Type} (p : Proc A) : Prop :=
  ∀ code, outcome p = inl code → all_events (λ e, ¬ deferred e) p.

Lemma exit_skips_deferred_bind {A B : Type} (m : Proc A) (f : A → Proc B) :
  all_events (λ e, ¬ deferred e) m →
  (∀ a, exit_skips_deferred (f a)) →
  exit_skips_deferred (m ≫= f).
Proof.
  intros Hm Hf code Hout e [He|(a & Houtm & He)]%elem_trace_bind_inv; [by apply Hm|].
  rewrite outcome_bind, Houtm in Hout. by apply (Hf a code).
Qed.

Ltac not_deferred := intros [?|[? ?]]; discriminate.

Ltac skip_leaf :=
  first [ events_leaf not_deferred
        | branches;
          (let code := fresh in let Hc := fresh in let e := fresh "e" in let He := fresh in
           intros code Hc e He; cbn in Hc; try discriminate Hc;
           members_subst He; not_deferred) ].

Lemma main_exit_skips_deferred (w : World) : exit_skips_deferred (main w).
Proof. walk_main @exit_skips_deferred_bind skip_leaf. Qed.

(** What a returning run has done. *)
Definition return_runs (e : Event) {A : Type} (p : Proc A) : Prop :=
  (∃ a, outcome p = inr a) → e ∈ trace p.

Lemma return_runs_bind (e : Event) {A B : Type} (m : Proc A) (f : A → Proc B) :
  (∀ a, return_runs e (f a)) → return_runs e (m ≫= f).
Proof.
  intros Hf [b Hout]. apply outcome_bind_inr in Hout as (a & Houtm & Hout).
  eapply elem_trace_bind_r; [done|]. apply Hf. eauto.
Qed.

Lemma main_return_runs (w : World) (e : Event) :
  e = ServiceGracefulStop
  ∨ (logPath (args w) ≠ "" ∧ e = CloseFile (logPath (args w))) →
  return_runs e (main w).
Proof.
  intros He. unfold main.
  do 7 (apply return_runs_bind; intros ?).
  destruct (common_GetSaplingInfo _ _) as [[[[? ?] ?] ?] ?].
  do 13 (apply return_runs_bind; intros ?).
  destruct (frontend_NewSQLiteStreamer _ _ _); [by intros [? ?]|].
  apply return_runs_bind; intros ?.
  destruct (net_Listen _ _); [by intros [? ?]|].
  apply return_runs_bind; intros ?.
  destruct (server_Serve _); [by intros [? ?]|].
  intros _. destruct He as [->|[Hlog ->]].
  - here. constructor.
  - eapply elem_trace_bind_r; [reflexivity|].
    rewrite (bool_decide_eq_true_2 _ Hlog). constructor.
Qed.

(** X3: the deferred calls of [main] (stopping the streamer service, closing
    the log file) run when [main] returns, and on no exit: every
    [os.Exit] and every fatal log entry leaves the service unstopped and
    the log file unclosed. *)
Theorem main_deferred_calls (w : World) :
  (outcome (main w) = inr tt →
   ServiceGracefulStop ∈ trace (main w)
   ∧ (logPath (args w) ≠ "" → CloseFile (logPath (args w)) ∈ trace (main w)))
  ∧ (∀ code, outcome (main w) = inl code →
     (ServiceGracefulStop ∉ trace (main w))
     ∧ ∀ path, CloseFile path ∉ trace (main w)).
Proof.
  split.
  - intros Hret. split; [|intros Hlog]; apply main_return_runs; eauto.
  - intros code Hexit. pose proof (main_exit_skips_deferred w code Hexit) as Hno.
    split; [|intros path]; intros Hin; apply (Hno _ Hin); unfold deferred; eauto.
Qed.

Lemma main_deferred_calls_witness :
  ServiceGracefulStop ∈ trace (main w_tls)
  ∧ (ServiceGracefulStop ∉ trace (main w_port_taken)).
Proof.
  split.
  - apply (main_deferred_calls w_tls). by vm_compute.
  - apply (proj2 (main_deferred_calls w_port_taken) 1%Z). by vm_compute.
Defined.

(** *** How far startup gets *)

(** Effects that only a startup past the checks on flags and files has. *)
Definition past_checks (e : Event) : Prop :=
  e = ReflectionRegister ∨ (∃ g, e = Go g) ∨ (∃ addr, e = Serve addr)
  ∨ e = ServiceGracefulStop.

Ltac not_past_checks := intros [?|[[? ?]|[[? ?]|?]]]; discriminate.

Lemma main_past_checks (w : World) :
  all_events (λ e, past_checks e → flags_ok (args w) ∧ files_ok w) (main w).
Proof.
  unfold main.
  apply all_events_bind; [ events_leaf not_past_checks | intros ? H1 ].
  assert (zcashConfPath (args w) ≠ "") as Hconf by (clear -H1; fact_from H1).
  clear H1.
  apply all_events_bind; [ events_leaf not_past_checks | intros ? H2 ].
  assert (noTLS (args w) = true
          ∨ (tlsCertPath (args w) ≠ "" ∧ tlsKeyPath (args w) ≠ "")) as Htls
    by (clear -H2; fact_from H2).
  clear H2.
  apply all_events_bind; [ events_leaf not_past_checks | intros ? H3 ].
  assert (logPath (args w) ≠ "" → os_OpenFile w (logPath (args w)) = None) as Hlog
    by (clear -H3; fact_from H3).
  clear H3.
  events_step not_past_checks.
  apply all_events_bind; [ events_leaf not_past_checks | intros ? H5 ].
  assert (noTLS (args w) = false →
          credentials_NewServerTLSFromFile w (tlsCertPath (args w))
            (tlsKeyPath (args w)) = None) as Hcert
    by (clear -H5 Htls; fact_from H5).
  clear H5.
  apply all_events_intro. intros e _. by repeat split.
Qed.

(** What has held when the server is served, and when it has stopped. *)
Lemma main_serving (w : World) :
  all_events (λ e, ∀ addr, e = Serve addr →
     addr = bindAddr (args w)
     ∧ frontend_NewSQLiteStreamer w (resolved_client w) (cacheRef (cacheSize (args w))) = None
     ∧ net_Listen w (bindAddr (args w)) = None) (main w).
Proof.
  unfold main.
  do 6 (events_step ltac:(intros addr Heq; discriminate Heq)).
  apply all_events_bind;
    [ unfold frontend.NewZRPCFromCreds; events_leaf ltac:(intros addr Heq; discriminate Heq)
    | intros c Hc ].
  assert (c = resolved_client w) as -> by (clear -Hc; client_from Hc).
  clear Hc.
  destruct (common_GetSaplingInfo w (resolved_client w)) as [[[[sh bh] chain] br] err].
  do 13 (events_step ltac:(intros addr Heq; discriminate Heq)).
  events_leaf ltac:(intros addr Heq; try discriminate Heq; by simplify_eq).
Qed.

Lemma main_served (w : World) :
  all_events (λ e, e = ServiceGracefulStop →
     frontend_NewSQLiteStreamer w (resolved_client w) (cacheRef (cacheSize (args w))) = None
     ∧ net_Listen w (bindAddr (args w)) = None
     ∧ server_Serve w = None) (main w).
Proof.
  unfold main.
  do 6 (events_step ltac:(intros Heq; discriminate Heq)).
  apply all_events_bind;
    [ unfold frontend.NewZRPCFromCreds; events_leaf ltac:(intros Heq; discriminate Heq)
    | intros c Hc ].
  assert (c = resolved_client w) as -> by (clear -Hc; client_from Hc).
  clear Hc.
  destruct (common_GetSaplingInfo w (resolved_client w)) as [[[[sh bh] chain] br] err].
  do 13 (events_step ltac:(intros Heq; discriminate Heq)).
  events_leaf ltac:(intros Heq; try discriminate Heq; done).
Qed.

(** X4: [main] returns, rather than exiting with status 1, exactly when the
    flags pass both checks, the log file and the TLS credentials load, the
    streamer service is made, the listener binds and [server.Serve] returns
    no error.  A failure of the config file, of the RPC client or of
    [GetSaplingInfo] has no part in it. *)
Theorem main_returns_iff (w : World) :
  outcome (main w) = inr tt
  ↔ flags_ok (args w) ∧ files_ok w
    ∧ frontend_NewSQLiteStreamer w (resolved_client w) (cacheRef (cacheSize (args w))) = None
    ∧ net_Listen w (bindAddr (args w)) = None
    ∧ server_Serve w = None.
Proof.
  split.
  - intros Hret.
    assert (ServiceGracefulStop ∈ trace (main w)) as Hin
      by (apply main_return_runs; eauto).
    destruct (main_past_checks w _ Hin) as [Hflags Hfiles]; [by right; right; right|].
    destruct (main_served w _ Hin eq_refl) as (? & ? & ?). done.
  - intros ([Hconf Htls] & [Hlog Hcert] & Hstream & Hlisten & Hserve). unfold main.
    do 6 return_step.
    rewrite (outcome_bind_r _ _ (resolved_client w)) by client_outcome.
    destruct (common_GetSaplingInfo w (resolved_client w)) as [[[[sh bh] chain] br] err].
    do 13 return_step.
    rewrite Hstream. return_step. rewrite Hlisten. return_step. rewrite Hserve.
    return_step. by case_bool_decide.
Qed.

Lemma main_returns_iff_witness : outcome (main w_tls) = inr tt.
Proof.
  apply (proj2 (main_returns_iff w_tls)).
  split; [apply flags_ok_tls_options|]. by repeat split.
Defined.

(** X15: the gRPC server is served, and then on the bind address, exactly
    when the flags pass both checks, the log file and the TLS credentials
    load, the streamer service is made and the listener binds. *)
Theorem serves_iff (w : World) (addr : string) :
  Serve addr ∈ trace (main w)
  ↔ addr = bindAddr (args w)
    ∧ flags_ok (args w) ∧ files_ok w
    ∧ frontend_NewSQLiteStreamer w (resolved_client w) (cacheRef (cacheSize (args w))) = None
    ∧ net_Listen w (bindAddr (args w)) = None.
Proof.
  split.
  - intros Hin.
    destruct (main_past_checks w _ Hin) as [Hflags Hfiles]; [right; right; left; eauto|].
    destruct (main_serving w _ Hin addr eq_refl) as (? & ? & ?). done.
  - intros (-> & [Hconf Htls] & [Hlog Hcert] & Hstream & Hlisten). unfold main.
    do 6 pass. client_pass w.
    destruct (common_GetSaplingInfo w (resolved_client w)) as [[[[sh bh] chain] br] err].
    do 13 pass. rewrite Hstream. pass. rewrite Hlisten. here. constructor.
Qed.

Lemma serves_iff_witness : Serve "127.0.0.1:9067" ∈ trace (main w_no_credentials).
Proof.
  apply (proj2 (serves_iff w_no_credentials "127.0.0.1:9067")).
  split; [reflexivity|]. split; [apply flags_ok_tls_options|]. by repeat split.
Defined.

(** The heights the node reports to the client [main] goes on with. *)
Definition saplingHeight_of (w : World) : Z :=
  (common_GetSaplingInfo w (resolved_client w)).1.1.1.1.

Definition blockHeight_of (w : World) : Z :=
  (common_GetSaplingInfo w (resolved_client w)).1.1.1.2.

(** X5: when the flags pass both checks and the log file and the TLS
    credentials load, [main] starts five goroutines, in this order: the
    live ingestor, the historical ingestor, the signal handler, the metrics
    server and the params handler, the two ingestors with the client [main]
    has settled on and one cache; otherwise it starts none.  What comes
    later (streamer service, listener) does not matter to that. *)
Theorem main_goroutines_iff (w : World) :
  (flags_ok (args w) ∧ files_ok w →
   goroutines (trace (main w))
   = started w (resolved_client w) (saplingHeight_of w) (blockHeight_of w))
  ∧ (¬ (flags_ok (args w) ∧ files_ok w) → goroutines (trace (main w)) = []).
Proof.
  split.
  - intros [Hflags Hfiles]. unfold saplingHeight_of, blockHeight_of.
    destruct (common_GetSaplingInfo w (resolved_client w))
      as [[[[sh bh] chain] br] err] eqn:Hinfo.
    by eapply main_starts.
  - intros Hnot.
    destruct (main_goroutines w) as [Hnone|(c & sh & bh & chain & br & err & _ & Hall)];
      [done|].
    destruct Hnot. apply (main_past_checks w (Go (BlockIngestor c
      (cacheRef (cacheSize (args w))) stopChan (Z.max (int_sub bh 100) sh)))).
    + apply elem_of_goroutines. rewrite Hall. constructor.
    + right. left. eauto.
Qed.

Lemma main_goroutines_iff_witness :
  goroutines (trace (main w_port_taken))
  = started w_port_taken client_creds 492850 1100000
  ∧ goroutines (trace (main w_no_tls_material)) = [].
Proof.
  split.
  - apply (proj1 (main_goroutines_iff w_port_taken)).
    split; [apply flags_ok_tls_options|]. by repeat split.
  - apply (proj2 (main_goroutines_iff w_no_tls_material)).
    intros [[_ [Hno|[Hcert _]]] _]; [discriminate Hno|by apply Hcert].
Defined.

(** *** The gRPC server *)

(** What the credentials of the gRPC server are. *)
Definition server_credentials_ok (w : World) (creds : option (string * string)) : Prop :=
  creds = (if noTLS (args w) then None
           else Some (tlsCertPath (args w), tlsKeyPath (args w)))
  ∧ (noTLS (args w) = false →
     tlsCertPath (args w) ≠ "" ∧ tlsKeyPath (args w) ≠ ""
     ∧ credentials_NewServerTLSFromFile w (tlsCertPath (args w))
         (tlsKeyPath (args w)) = None).

Lemma main_server_credentials (w : World) :
  all_events (λ e, ∀ creds, e = NewServer creds → server_credentials_ok w creds) (main w).
Proof.
  unfold main.
  events_step ltac:(intros creds Heq; discriminate Heq).
  apply all_events_bind;
    [ events_leaf ltac:(intros creds Heq; discriminate Heq) | intros ? H2 ].
  assert (noTLS (args w) = true
          ∨ (tlsCertPath (args w) ≠ "" ∧ tlsKeyPath (args w) ≠ "")) as Htls
    by (clear -H2; fact_from H2).
  clear H2.
  do 2 (events_step ltac:(intros creds Heq; discriminate Heq)).
  apply all_events_bind; [ | intros _ _ ].
  { destruct (noTLS (args w)) eqn:Hno;
      events_leaf ltac:(intros creds Heq; simplify_eq; unfold server_credentials_ok;
                        rewrite ?Hno; cbn in *; try discriminate;
                        intuition congruence). }
  events_step ltac:(intros creds Heq; discriminate Heq).
  events_from_rpc ltac:(intros creds Heq; discriminate Heq).
Qed.

(** X6: the gRPC server is made without transport credentials only under
    [-no-tls], and then also when a certificate and a key are given;
    without [-no-tls] it is made with the credentials loaded from the
    certificate and key paths, both non-empty and loaded without error. *)
Theorem server_credentials (w : World) (creds : option (string * string)) :
  NewServer creds ∈ trace (main w) →
  creds = (if noTLS (args w) then None
           else Some (tlsCertPath (args w), tlsKeyPath (args w)))
  ∧ (noTLS (args w) = false →
     tlsCertPath (args w) ≠ "" ∧ tlsKeyPath (args w) ≠ ""
     ∧ credentials_NewServerTLSFromFile w (tlsCertPath (args w))
         (tlsKeyPath (args w)) = None).
Proof. intros Hin. by apply (main_server_credentials w _ Hin). Qed.

(** [-no-tls] together with a certificate and a key. *)
Definition w_no_tls_with_material : World :=
  world_for (options_for "cert.pem" "key.pem" true) (λ _, inr conf_creds).

Lemma server_credentials_witness :
  (None : option (string * string))
  = (if noTLS (args w_no_tls_with_material) then None
     else Some (tlsCertPath (args w_no_tls_with_material),
                tlsKeyPath (args w_no_tls_with_material)))
  ∧ (noTLS (args w_no_tls_with_material) = false →
     tlsCertPath (args w_no_tls_with_material) ≠ ""
     ∧ tlsKeyPath (args w_no_tls_with_material) ≠ ""
     ∧ credentials_NewServerTLSFromFile w_no_tls_with_material
         (tlsCertPath (args w_no_tls_with_material))
         (tlsKeyPath (args w_no_tls_with_material)) = None).
Proof.
  apply (server_credentials w_no_tls_with_material None).
  apply (bool_decide_unpack _). by vm_compute.
Defined.

Lemma main_reflection_level (w : World) :
  all_events (λ e, e = ReflectionRegister →
                   (logrus.to_uint64 logrus.WarnLevel ≤ logLevel (args w))%Z) (main w).
Proof.
  unfold main.
  do 6 (events_step ltac:(intros Heq; try discriminate Heq; done)).
  events_from_rpc ltac:(intros Heq; discriminate Heq).
Qed.

(** X7: gRPC reflection is registered exactly when startup gets past the
    checks on flags and files and the log level is 3 (warn) or more, which
    the default level, 4 (info), is. *)
Theorem reflection_registered_iff (w : World) :
  ReflectionRegister ∈ trace (main w)
  ↔ flags_ok (args w) ∧ files_ok w ∧ (3 ≤ logLevel (args w))%Z.
Proof.
  split.
  - intros Hin. destruct (main_past_checks w _ Hin) as [Hflags Hfiles]; [by left|].
    split; [done|]. split; [done|]. by apply (main_reflection_level w _ Hin).
  - intros ([Hconf Htls] & [Hlog Hcert] & Hlevel). unfold main.
    do 5 pass. here.
    rewrite bool_decide_eq_true_2 by done. constructor.
Qed.

Lemma reflection_registered_iff_witness :
  logLevel (args w_tls) = logLevel defaultOptions
  ∧ ReflectionRegister ∈ trace (main w_tls).
Proof.
  split; [reflexivity|].
  apply (proj2 (reflection_registered_iff w_tls)).
  split; [apply flags_ok_tls_options|]. by repeat split.
Defined.

(** *** The client and the node *)

Lemma main_warnings_without_client_warning (w : World) :
  frontend.NewZRPCFromConf (ini_Load w) (rpcclient_New w) (zcashConfPath (args w))
    = (None, None) →
  all_events (λ e, ∀ fields msg, e = Log logrus.WarnLevel fields msg →
                   msg = "Unable to get sapling activation height") (main w).
Proof.
  intros Hres. unfold main.
  do 6 (events_step ltac:(intros fields msg Heq; discriminate Heq)).
  rewrite Hres.
  events_from_rpc ltac:(intros fields msg Heq; try discriminate Heq; by simplify_eq).
Qed.

(** X8: with a config file that loads but lacks a credential, [main] goes
    on with a nil client: [NewZRPCFromConf] reports no error, so the
    fallback to empty credentials is not tried, no warning about the config
    file or the connection is logged, and the goroutines are started with
    the nil client. *)
Theorem missing_credentials_nil_client (w : World) (cfg : ini.File) :
  flags_ok (args w) → files_ok w →
  ini_Load w (zcashConfPath (args w)) = inr cfg →
  ¬ credentials_set cfg →
  resolved_client w = None
  ∧ (∃ sh bh, goroutines (trace (main w)) = started w None sh bh)
  ∧ (∀ fields msg, Log logrus.WarnLevel fields msg ∈ trace (main w) →
       msg = "Unable to get sapling activation height").
Proof.
  intros Hflags Hfiles Hload Hcreds.
  assert (frontend.NewZRPCFromConf (ini_Load w) (rpcclient_New w)
            (zcashConfPath (args w)) = (None, None)) as Hres.
  { rewrite NewZRPCFromConf_cases, Hload. by case_decide. }
  assert (resolved_client w = None) as Hnil by (unfold resolved_client; by rewrite Hres).
  split; [done|]. split.
  - destruct (common_GetSaplingInfo w (resolved_client w))
      as [[[[sh bh] chain] br] err] eqn:Hinfo.
    exists sh, bh. rewrite <- Hnil. by eapply main_starts.
  - intros fields msg Hin.
    by apply (main_warnings_without_client_warning w Hres _ Hin fields msg).
Qed.

Lemma missing_credentials_nil_client_witness :
  resolved_client w_no_credentials = None
  ∧ (∃ sh bh, goroutines (trace (main w_no_credentials))
              = started w_no_credentials None sh bh)
  ∧ (∀ fields msg, Log logrus.WarnLevel fields msg ∈ trace (main w_no_credentials) →
       msg = "Unable to get sapling activation height").
Proof.
  apply (missing_credentials_nil_client w_no_credentials conf_empty).
  - apply flags_ok_tls_options.
  - by split.
  - reflexivity.
  - vm_compute. intros [H _]. by apply H.
Defined.

(** X9: when [GetSaplingInfo] fails, [main] logs the warning "Unable to get
    sapling activation height" and still starts its goroutines, from the
    heights that came with the error. *)
Theorem sapling_info_failure_degrades (w : World) sh bh chain br (e : Error) :
  flags_ok (args w) → files_ok w →
  common_GetSaplingInfo w (resolved_client w) = (sh, bh, chain, br, Some e) →
  Log logrus.WarnLevel [("error", FError (Some e))]
      "Unable to get sapling activation height" ∈ trace (main w)
  ∧ goroutines (trace (main w)) = started w (resolved_client w) sh bh.
Proof.
  intros Hflags Hfiles Hinfo. split; [|by eapply main_starts].
  destruct Hflags as [Hconf Htls], Hfiles as [Hlog Hcert].
  unfold main. do 6 pass. client_pass w.
  rewrite Hinfo. here. constructor.
Qed.

Lemma sapling_info_failure_degrades_witness :
  Log logrus.WarnLevel
      [("error", FError (Some (ErrNew "error requesting block: connection refused")))]
      "Unable to get sapling activation height" ∈ trace (main w_node_down)
  ∧ goroutines (trace (main w_node_down))
    = started w_node_down (resolved_client w_node_down) (-1) (-1).
Proof.
  apply (sapling_info_failure_degrades w_node_down (-1) (-1) "" "").
  - apply flags_ok_tls_options.
  - by split.
  - reflexivity.
Defined.

Lemma main_historical_ingestor (w : World) c k h n f :
  Go (HistoricalBlockIngestor c k h n f) ∈ trace (main w) →
  ∃ sh bh chain br err,
    common_GetSaplingInfo w c = (sh, bh, chain, br, err)
    ∧ f = sh ∧ n = cacheSize (args w)
    ∧ h = int_sub (Z.max (int_sub bh 100) sh) 1.
Proof.
  intros Hin%elem_of_goroutines.
  destruct (main_goroutines w) as [Hnone|(c' & sh & bh & chain & br & err & Hinfo & Hall)].
  - rewrite Hnone in Hin. by apply elem_of_nil in Hin.
  - rewrite Hall in Hin. unfold started in Hin.
    repeat (apply elem_of_cons in Hin as [Hin|Hin]; [try discriminate|]).
    + simplify_eq. by exists sh, bh, chain, br, err.
    + by apply elem_of_nil in Hin.
Qed.

(** X10: the historical ingestor is started at most one height below its own
    floor, and exactly one below it (nothing left to walk) when the best
    height less 100 is not above the sapling height; its cache size is the
    [-cache-size] option.  (For a floor above the least [int].) *)
Theorem historical_start_and_floor (w : World) c k h n f :
  Go (HistoricalBlockIngestor c k h n f) ∈ trace (main w) →
  (min_int < f ≤ max_int)%Z →
  ∃ sh bh chain br err,
    common_GetSaplingInfo w c = (sh, bh, chain, br, err)
    ∧ f = sh
    ∧ n = cacheSize (args w)
    ∧ (f - 1 ≤ h)%Z
    ∧ (h = f - 1 ↔ int_sub bh 100 ≤ f)%Z.
Proof.
  intros (sh & bh & chain & br & err & Hinfo & -> & -> & ->)%main_historical_ingestor Hf.
  exists sh, bh, chain, br, err. split; [done|]. split; [done|]. split; [done|].
  pose proof (wrap_int_range (bh - 100)) as Hrange. fold (int_sub bh 100) in Hrange.
  unfold int_sub at 1 3. rewrite wrap_int_id by (unfold min_int, max_int in *; lia).
  lia.
Qed.

(** A node whose best height is 50 above the sapling height. *)
Definition w_young_chain : World :=
  with_SaplingInfo w_tls (492850, 492900, "main", "76b809bb", None)%Z.

Lemma historical_start_and_floor_witness :
  ∃ sh bh chain br err,
    common_GetSaplingInfo w_young_chain client_creds = (sh, bh, chain, br, err)
    ∧ 492850%Z = sh
    ∧ 40000%Z = cacheSize (args w_young_chain)
    ∧ (492850 - 1 ≤ 492849)%Z
    ∧ (492849 = 492850 - 1 ↔ int_sub bh 100 ≤ 492850)%Z.
Proof.
  apply (historical_start_and_floor w_young_chain client_creds (cacheRef 40000)).
  - apply (bool_decide_unpack _). by vm_compute.
  - by vm_compute.
Defined.

End Startup.
